(** * pyatv: authentication selection, pairing handler and configuration

    A shallow embedding of

    - [pyatv/protocols/airplay/auth/__init__.py]  (module [AirPlayAuth]),
    - [pyatv/protocols/mrp/pairing.py]            (module [MrpPairing]),
    - [pyatv/conf.py]                             (module [Conf]),

    together with the statements that relate the written specification to
    that code.  Python exceptions are values of [exception]; a call that may
    raise returns a [result]; objects mutated in place are threaded
    explicitly. *)

From Stdlib Require Import ZArith Lia Bool Ascii String DecimalString.
From Stdlib Require Import DecimalPos.
From stdpp Require Import base option gmap strings list.

Local Open Scope string_scope.

(** ** Exceptions and fallible results *)

(** The exception classes of [pyatv.exceptions] that the embedded code
    raises itself, and one constructor for whatever a collaborator
    (protocol engine, parser, network) raises. *)
Inductive exception : Type :=
| NotSupportedError (msg : string)
| PairingError (msg : string)
| ExternalError (cls msg : string).

(** [str(ex)] of an exception: its message. *)
Definition exception_str (e : exception) : string :=
  match e with
  | NotSupportedError m => m
  | PairingError m => m
  | ExternalError _ m => m
  end.

Inductive result (A : Type) : Type :=
| Ok (a : A)
| Raise (e : exception).
Arguments Ok {A} a.
Arguments Raise {A} e.

Definition is_ok {A} (r : result A) : bool :=
  match r with Ok _ => true | Raise _ => false end.

Definition result_bind {A B} (r : result A) (k : A -> result B) : result B :=
  match r with
  | Ok a => k a
  | Raise e => Raise e
  end.

Declare Scope result_scope.
Delimit Scope result_scope with result.
Notation "'try' x <- r ; k" := (result_bind r (fun x => k))
  (at level 10, x name, r at level 100, k at level 200) : result_scope.

(** ** Types shared by the three modules *)

(** Modelled from the spec: the enumeration [AuthenticationType] of
    [pyatv.auth.hap_pairing], whose declaration is not part of the sources:
    the tag [Legacy | HAP | Transient | Null]. *)
Inductive AuthenticationType : Type := Null | Legacy | HAP | Transient.

Global Instance AuthenticationType_eq_dec : EqDecision AuthenticationType.
Proof. solve_decision. Defined.

(** [str(auth_type)] as interpolated by an f-string. *)
Definition AuthenticationType_str (t : AuthenticationType) : string :=
  match t with
  | Null => "AuthenticationType.Null"
  | Legacy => "AuthenticationType.Legacy"
  | HAP => "AuthenticationType.HAP"
  | Transient => "AuthenticationType.Transient"
  end.

(** Modelled from the spec: the record [HapCredentials] of
    [pyatv.auth.hap_pairing] (declaration not part of the sources): a scheme
    tag and the key material
    [{type, identifier, long_term_public_key, long_term_secret_key, extra}]. *)
Record HapCredentials : Type := mkHapCredentials {
  type : AuthenticationType;
  identifier : option string;
  long_term_public_key : list Byte.byte;
  long_term_secret_key : option (list Byte.byte);
  extra : list Byte.byte
}.

(** [pyatv.const.Protocol]: the members that [conf.py] names. *)
Inductive Protocol : Type := DMAP | MRP | AirPlay | Companion | RAOP.

Global Instance Protocol_eq_dec : EqDecision Protocol.
Proof. solve_decision. Defined.

Definition Protocol_to_nat (p : Protocol) : nat :=
  match p with DMAP => 0 | MRP => 1 | AirPlay => 2 | Companion => 3 | RAOP => 4 end.

Definition Protocol_of_nat (n : nat) : option Protocol :=
  match n with
  | 0 => Some DMAP | 1 => Some MRP | 2 => Some AirPlay
  | 3 => Some Companion | 4 => Some RAOP | _ => None
  end.

Global Program Instance Protocol_countable : Countable Protocol :=
  inj_countable Protocol_to_nat Protocol_of_nat _.
Next Obligation. by intros []. Qed.

(** Modelled from the spec: a service object ([pyatv.interface.BaseService]
    and its subclasses in [conf.py]): [identifier], [protocol], [port],
    [properties] (a mapping of string to string) and the plain attribute
    [credentials] that every subclass constructor assigns; [password] is the
    extra attribute of [RaopService] ([None] elsewhere). *)
Record BaseService : Type := mkService {
  svc_identifier : option string;
  protocol : Protocol;
  port : Z;
  properties : gmap string string;
  credentials : option string;
  password : option string
}.

(** [service.credentials = value]. *)
Definition set_service_credentials (s : BaseService) (c : option string) : BaseService :=
  {| svc_identifier := svc_identifier s; protocol := protocol s; port := port s;
     properties := properties s; credentials := c; password := password s |}.

(** Modelled from the spec: the collaborators of [pyatv.auth.hap_pairing]
    (not part of the sources): the credential codec ([parse_credentials]
    rejects a malformed token by raising, [str(credentials)] serializes) and
    the two sentinel values. *)
Class HapPairing : Type := {
  parse_credentials : string -> result HapCredentials;
  credentials_str : HapCredentials -> string;
  NO_CREDENTIALS : HapCredentials;
  TRANSIENT_CREDENTIALS : HapCredentials
}.

(** ** [pyatv/protocols/airplay/auth/__init__.py] *)

Module AirPlayAuth.

Definition CONTROL_SALT : string := "Control-Salt".
Definition CONTROL_OUTPUT_INFO : string := "Control-Write-Encryption-Key".
Definition CONTROL_INPUT_INFO : string := "Control-Read-Encryption-Key".

(** Modelled from the spec: [pyatv.auth.hap_session.HAPSession] (not part
    of the sources), the session encryption wrapper: created without keys,
    [enable] keys it with the derived (output, input) pair. *)
Record HAPSession : Type := mkHAPSession {
  session_keys : option (string * string)
}.

Definition HAPSession_new : HAPSession := {| session_keys := None |}.

Definition HAPSession_enable (output_key input_key : string) (s : HAPSession)
  : HAPSession :=
  {| session_keys := Some (output_key, input_key) |}.

(** What can sit in a processor hook of a connection: the identity
    pass-through, or the bound method [session.decrypt] / [session.encrypt]
    of a session. *)
Inductive processor : Type :=
| identity
| session_decrypt (s : HAPSession)
| session_encrypt (s : HAPSession).

(** Modelled from the spec: the part of [pyatv.support.http.HttpConnection]
    (not part of the sources) that this module touches, the two swappable
    hooks. *)
Record HttpConnection : Type := mkHttpConnection {
  receive_processor : processor;
  send_processor : processor
}.

(** The SRP engines ([pyatv.auth.hap_srp.SRPAuthHandler] and
    [pyatv.protocols.airplay.srp.LegacySRPAuthHandler], not part of the
    sources) as far as the factories drive them: construction and
    [initialize()]. *)
Record SRPAuthHandler : Type := mkSRP { srp_initialized : bool }.

Record LegacySRPAuthHandler : Type := mkLegacySRP {
  legacy_credentials : HapCredentials;
  legacy_initialized : bool
}.

Definition SRPAuthHandler_new : SRPAuthHandler := {| srp_initialized := false |}.
Definition SRPAuthHandler_initialize (s : SRPAuthHandler) : SRPAuthHandler :=
  {| srp_initialized := true |}.

Definition LegacySRPAuthHandler_new (c : HapCredentials) : LegacySRPAuthHandler :=
  {| legacy_credentials := c; legacy_initialized := false |}.
Definition LegacySRPAuthHandler_initialize (s : LegacySRPAuthHandler)
  : LegacySRPAuthHandler :=
  {| legacy_credentials := legacy_credentials s; legacy_initialized := true |}.

(** The closed set of Pair-Setup strategies the factory can return. *)
Inductive PairSetupProcedure : Type :=
| AirPlayLegacyPairSetupProcedure (connection : HttpConnection)
    (srp : LegacySRPAuthHandler)
| AirPlayHapPairSetupProcedure (connection : HttpConnection)
    (srp : SRPAuthHandler).

(** The closed set of Pair-Verify strategies the factory can return. *)
Inductive PairVerifyProcedure : Type :=
| NullPairVerifyProcedure
| AirPlayLegacyPairVerifyProcedure (connection : HttpConnection)
    (srp : LegacySRPAuthHandler)
| AirPlayHapPairVerifyProcedure (connection : HttpConnection)
    (srp : SRPAuthHandler) (credentials : HapCredentials)
| AirPlayHapTransientPairVerifyProcedure (connection : HttpConnection)
    (srp : SRPAuthHandler).

(** What lies outside this module: the credentials that
    [new_credentials()] generates, the handshake of the three non-null
    verifiers (what [verify_credentials()] returns or raises and what
    [encryption_keys] derives), and [features.parse] with the two
    [AirPlayFlags] members the module tests. *)
Class Collaborators : Type := {
  new_credentials : HapCredentials;
  handshake_verify_credentials : PairVerifyProcedure -> result bool;
  handshake_encryption_keys :
    PairVerifyProcedure -> string -> string -> string -> result (string * string);
  ft_parse : string -> result Z;
  SupportsSystemPairing : Z;
  SupportsCoreUtilsPairingAndEncryption : Z
}.

(** [flag in features] on an [IntFlag]: every bit of [flag] is set. *)
Definition flag_in (flag features : Z) : bool :=
  Z.eqb (Z.land flag features) flag.

Section Code.
Context `{HP : HapPairing} `{CO : Collaborators}.

(** [NullPairVerifyProcedure.verify_credentials], and the same method of
    the other variants. *)
Definition verify_credentials (v : PairVerifyProcedure) : result bool :=
  match v with
  | NullPairVerifyProcedure => Ok false
  | _ => handshake_verify_credentials v
  end.

(** [NullPairVerifyProcedure.encryption_keys], and the same method of
    the other variants. *)
Definition encryption_keys (v : PairVerifyProcedure)
    (salt output_info input_key : string) : result (string * string) :=
  match v with
  | NullPairVerifyProcedure =>
      Raise (NotSupportedError
               "encryption keys not supported by null implementation")
  | _ => handshake_encryption_keys v salt output_info input_key
  end.

Definition pair_setup (auth_type : AuthenticationType)
    (connection : HttpConnection) : result PairSetupProcedure :=
  if decide (auth_type = Legacy) then
    let srp := LegacySRPAuthHandler_new new_credentials in
    let srp := LegacySRPAuthHandler_initialize srp in
    Ok (AirPlayLegacyPairSetupProcedure connection srp)
  else if decide (auth_type = HAP) then
    let srp := SRPAuthHandler_new in
    let srp := SRPAuthHandler_initialize srp in
    Ok (AirPlayHapPairSetupProcedure connection srp)
  else
    Raise (NotSupportedError
             ("authentication type " ++ AuthenticationType_str auth_type
              ++ " does not support Pair-Setup")).

Definition pair_verify (credentials : HapCredentials)
    (connection : HttpConnection) : PairVerifyProcedure :=
  if decide (type credentials = Null) then
    NullPairVerifyProcedure
  else if decide (type credentials = Legacy) then
    let srp := LegacySRPAuthHandler_new credentials in
    let srp := LegacySRPAuthHandler_initialize srp in
    AirPlayLegacyPairVerifyProcedure connection srp
  else
    let srp := SRPAuthHandler_new in
    let srp := SRPAuthHandler_initialize srp in
    if decide (type credentials = HAP) then
      AirPlayHapPairVerifyProcedure connection srp credentials
    else
      AirPlayHapTransientPairVerifyProcedure connection srp.

(** [verify_connection]: the connection object is mutated in place, so
    the function returns it next to the outcome (the verifier, or the
    exception that escaped). *)
Definition verify_connection (credentials : HapCredentials)
    (connection : HttpConnection)
  : result PairVerifyProcedure * HttpConnection :=
  let verifier := pair_verify credentials connection in
  match verify_credentials verifier with
  | Raise e => (Raise e, connection)
  | Ok has_encryption_keys =>
      if has_encryption_keys then
        match encryption_keys verifier
                CONTROL_SALT CONTROL_OUTPUT_INFO CONTROL_INPUT_INFO with
        | Raise e => (Raise e, connection)
        | Ok (output_key, input_key) =>
            let session := HAPSession_new in
            let session := HAPSession_enable output_key input_key session in
            let connection :=
              {| receive_processor := session_decrypt session;
                 send_processor := send_processor connection |} in
            let connection :=
              {| receive_processor := receive_processor connection;
                 send_processor := session_encrypt session |} in
            (Ok verifier, connection)
        end
      else (Ok verifier, connection)
  end.

(** [service.properties.get("features", "0x0")]. *)
Definition features_property (service : BaseService) : string :=
  default "0x0" (properties service !! "features").

Definition extract_credentials (service : BaseService) : result HapCredentials :=
  match credentials service with
  | Some token => parse_credentials token
  | None =>
      (try features <- ft_parse (features_property service);
       if flag_in SupportsSystemPairing features
          || flag_in SupportsCoreUtilsPairingAndEncryption features
       then Ok TRANSIENT_CREDENTIALS
       else Ok NO_CREDENTIALS)%result
  end.

End Code.

End AirPlayAuth.

(** ** Python built-ins used by [pairing.py] *)

(** ['0' * k]. *)
Fixpoint zeros (k : nat) : string :=
  match k with
  | O => EmptyString
  | S k' => String "0"%char (zeros k')
  end.

(** [str.zfill(width)]: a string already [width] long or longer is returned
    as it is; otherwise zeros are inserted on the left, after a leading sign
    character if there is one. *)
Definition zfill (width : nat) (s : string) : string :=
  let n := String.length s in
  if (width <=? n)%nat then s
  else
    let fill := zeros (width - n) in
    match s with
    | String c rest =>
        if Ascii.eqb c "+" || Ascii.eqb c "-"
        then String c (fill ++ rest)
        else fill ++ s
    | EmptyString => fill
    end.

(** The values a caller hands to [pin()]: an [int] or a [str]. *)
Inductive pin_value : Type :=
| PinInt (n : Z)
| PinStr (s : string).

(** [str(value)]: the decimal numeral of an [int], a [str] itself. *)
Definition py_str (v : pin_value) : string :=
  match v with
  | PinInt n => NilZero.string_of_int (Z.to_int n)
  | PinStr s => s
  end.

(** Truth value of an optional string: [None] and [""] are false. *)
Definition truthy (o : option string) : bool :=
  match o with
  | None => false
  | Some s => negb (String.eqb s "")
  end.

(** [int(s)] for a string made of an optional minus sign and decimal
    digits, the strings that [str] gives for integers, zero-filled or not;
    leading zeros do not count.  [None] for any other string. *)
Definition py_int (s : string) : option Z :=
  option_map Z.of_int (NilZero.int_of_string s).

(** ** [pyatv/protocols/mrp/pairing.py] *)

Module MrpPairing.

(** One handshake run over [self.protocol]: a call of the Pair-Setup
    procedure or of the verifier, with its arguments. *)
Inductive exchange : Type :=
| StartPairing
| FinishPairing (username pin : string)
| VerifyCredentials (c : HapCredentials).

(** The remote device behind [MrpPairSetupProcedure] and
    [MrpPairVerifyProcedure] ([pyatv.protocols.mrp.auth], not part of the
    sources): what each call returns or raises, given the handshakes run
    so far. *)
Class Device : Type := {
  start_pairing : list exchange -> result unit;
  finish_pairing : list exchange -> string -> string -> result HapCredentials;
  verifier_verify_credentials : list exchange -> HapCredentials -> result bool
}.

(** Modelled from the spec: [pyatv.support.error_handler] (not part of the
    sources): the awaited call's result is passed through, and a failure is
    wrapped into the fallback (pairing-domain) error carrying its text. *)
Definition error_handler {A} (call : result A) (fallback : string -> exception)
  : result A :=
  match call with
  | Ok a => Ok a
  | Raise e => Raise (fallback (exception_str e))
  end.

(** The attributes of a handler object: the service it was given (the
    object whose [credentials] it overwrites), whether [connection] has
    been closed, [pin_code], [_has_paired], and the handshakes run so far
    over its protocol. *)
Record MrpPairingHandler : Type := mkHandler {
  service : BaseService;
  connection_closed : bool;
  pin_code : option string;
  _has_paired : bool;
  exchanged : list exchange
}.

(** A method of the handler: it returns or raises, and leaves the object
    in a new state. *)
Definition method (A : Type) : Type :=
  MrpPairingHandler -> result A * MrpPairingHandler.

Definition ret {A} (a : A) : method A := fun h => (Ok a, h).

Definition raise {A} (e : exception) : method A := fun h => (Raise e, h).

Definition bind {A B} (m : method A) (k : A -> method B) : method B :=
  fun h =>
    match m h with
    | (Ok a, h') => k a h'
    | (Raise e, h') => (Raise e, h')
    end.

Notation "'exec' x <- m ; k" := (bind m (fun x => k))
  (at level 10, x name, m at level 100, k at level 200).
Notation "'exec_' m ; k" := (bind m (fun _ => k))
  (at level 10, m at level 100, k at level 200).

(** Run one handshake: record it, and hand back what the device answered
    given the handshakes before it. *)
Definition perform {A} (x : exchange) (answer : list exchange -> result A)
  : method A :=
  fun h =>
    (answer (exchanged h),
     {| service := service h; connection_closed := connection_closed h;
        pin_code := pin_code h; _has_paired := _has_paired h;
        exchanged := exchanged h ++ [x] |}).

(** An expression that may raise without touching the handler. *)
Definition lift {A} (r : result A) : method A := fun h => (r, h).

Definition get_pin_code : method (option string) := fun h => (Ok (pin_code h), h).

Definition set_pin_code (p : option string) : method unit :=
  fun h =>
    (Ok tt,
     {| service := service h; connection_closed := connection_closed h;
        pin_code := p; _has_paired := _has_paired h;
        exchanged := exchanged h |}).

Definition set_service_credentials_attr (c : string) : method unit :=
  fun h =>
    (Ok tt,
     {| service := set_service_credentials (service h) (Some c);
        connection_closed := connection_closed h;
        pin_code := pin_code h; _has_paired := _has_paired h;
        exchanged := exchanged h |}).

Definition set_has_paired (b : bool) : method unit :=
  fun h =>
    (Ok tt,
     {| service := service h; connection_closed := connection_closed h;
        pin_code := pin_code h; _has_paired := b;
        exchanged := exchanged h |}).

(** [__init__]: no PIN, not paired, nothing exchanged yet. *)
Definition MrpPairingHandler_init (svc : BaseService) : MrpPairingHandler :=
  {| service := svc; connection_closed := false; pin_code := None;
     _has_paired := false; exchanged := [] |}.

Definition has_paired (h : MrpPairingHandler) : bool := _has_paired h.

Definition device_provides_pin (h : MrpPairingHandler) : bool := true.

Section Code.
Context `{HP : HapPairing} `{DEV : Device}.

Definition close : method unit :=
  fun h =>
    (Ok tt,
     {| service := service h; connection_closed := true;
        pin_code := pin_code h; _has_paired := _has_paired h;
        exchanged := exchanged h |}).

Definition begin : method unit :=
  perform StartPairing (fun log => error_handler (start_pairing log) PairingError).

Definition finish : method unit :=
  exec pin <- get_pin_code;
  if negb (truthy pin) then raise (PairingError "no pin given")
  else
    let pin := default "" pin in
    exec c <- perform (FinishPairing "" pin)
                (fun log => error_handler (finish_pairing log "" pin)
                              PairingError);
    let credentials := credentials_str c in
    exec parsed <- lift (parse_credentials credentials);
    exec_ perform (VerifyCredentials parsed)
            (fun log => error_handler (verifier_verify_credentials log parsed)
                          PairingError);
    exec_ set_service_credentials_attr credentials;
    set_has_paired true.

Definition pin (value : pin_value) : method unit :=
  set_pin_code (Some (zfill 4 (py_str value))).

(** The calls an application can make on a handler, and a session of
    such calls; a call that raises leaves the object as the method left
    it and the session goes on (the caller caught the exception). *)
Inductive call : Type :=
| CallBegin
| CallPin (value : pin_value)
| CallFinish
| CallClose.

Definition invoke (c : call) : method unit :=
  match c with
  | CallBegin => begin
  | CallPin v => pin v
  | CallFinish => finish
  | CallClose => close
  end.

Fixpoint session (cs : list call) (h : MrpPairingHandler) : MrpPairingHandler :=
  match cs with
  | [] => h
  | c :: cs' => session cs' (snd (invoke c h))
  end.

End Code.

Definition is_pin_call (c : call) : bool :=
  match c with CallPin _ => true | _ => false end.

(** The state machine as the specification words it, for comparison with
    the code: states [Created -> Began -> PinSet -> Finished], [pin()]
    guarded by [Began], [finish()] guarded by [PinSet].  [None] is a
    rejected call. *)
Module SpecStateMachine.

Inductive state : Type := Created | Began | PinSet | Finished (success : bool).

Definition guarded_pin (s : state) : option state :=
  match s with
  | Began => Some PinSet
  | _ => None
  end.

Definition guarded_finish (s : state) (success : bool) : option state :=
  match s with
  | PinSet => Some (Finished success)
  | _ => None
  end.

End SpecStateMachine.

End MrpPairing.

(** ** [pyatv/conf.py] *)

Module Conf.

(** The attributes of an [AppleTV] configuration.  [_services] is the
    dictionary from protocol to service object. *)
Record AppleTV : Type := mkAppleTV {
  _address : Z;
  _name : string;
  _deep_sleep : bool;
  _services : gmap Protocol BaseService;
  _device_info : gmap string string;
  atv_properties : gmap string (gmap string string)
}.

Definition AppleTV_init (address : Z) (name : string) (deep_sleep : bool)
    (props : option (gmap string (gmap string string)))
    (device_info : option (gmap string string)) : AppleTV :=
  {| _address := address; _name := name; _deep_sleep := deep_sleep;
     _services := ∅;
     _device_info := default ∅ device_info;
     atv_properties := default ∅ props |}.

Definition get_service (self : AppleTV) (p : Protocol) : option BaseService :=
  _services self !! p.

(** [set_credentials]: the service object found in the dictionary is
    mutated in place, so the dictionary holds the updated object
    afterwards.  A service object defines neither [__bool__] nor
    [__len__], so [if service:] tests presence. *)
Definition set_credentials (self : AppleTV) (p : Protocol) (creds : string)
  : bool * AppleTV :=
  match get_service self p with
  | Some service =>
      let service := set_service_credentials service (Some creds) in
      (true,
       {| _address := _address self; _name := _name self;
          _deep_sleep := _deep_sleep self;
          _services := <[p := service]> (_services self);
          _device_info := _device_info self;
          atv_properties := atv_properties self |})
  | None => (false, self)
  end.

(** The exception that [conf.py] raises itself. *)
Inductive conf_exception : Type :=
| NoServiceError (msg : string).

(** The loop of [identifier]: the first protocol of the list that has a
    service decides, whatever that service's identifier is. *)
Fixpoint identifier_loop (self : AppleTV) (prots : list Protocol) : option string :=
  match prots with
  | [] => None
  | prot :: rest =>
      match _services self !! prot with
      | Some service => svc_identifier service
      | None => identifier_loop self rest
      end
  end.

Definition identifier (self : AppleTV) : option string :=
  identifier_loop self [MRP; DMAP; AirPlay; RAOP].

Fixpoint main_service_loop (self : AppleTV) (protocols : list Protocol)
  : conf_exception + BaseService :=
  match protocols with
  | [] => inl (NoServiceError "no service to connect to")
  | prot :: rest =>
      match _services self !! prot with
      | Some service => inr service
      | None => main_service_loop self rest
      end
  end.

(** [main_service(protocol=None)]: [inl] is the raised exception. *)
Definition main_service (self : AppleTV) (p : option Protocol)
  : conf_exception + BaseService :=
  let protocols :=
    match p with
    | Some p => [p]
    | None => [MRP; DMAP; AirPlay; RAOP]
    end in
  main_service_loop self protocols.

(** [__eq__]: [other] is [None] when it is not an [AppleTV] instance. *)
Definition AppleTV_eq (self : AppleTV) (other : option AppleTV) : bool :=
  match other with
  | Some other => bool_decide (identifier self = identifier other)
  | None => false
  end.

(** [BaseService.merge] of [pyatv.interface] (not part of the sources):
    [merge existing other] is the object [existing] after
    [existing.merge(other)]. *)
Class ServiceInterface : Type := {
  merge : BaseService -> BaseService -> BaseService
}.

(** [add_service] on the dictionary: merged into the object already stored
    under the protocol, or stored as it is. *)
Definition add_service `{SI : ServiceInterface} (self : AppleTV)
    (service : BaseService) : AppleTV :=
  let existing := _services self !! protocol service in
  let services :=
    match existing with
    | Some existing => <[protocol service := merge existing service]> (_services self)
    | None => <[protocol service := service]> (_services self)
    end in
  {| _address := _address self; _name := _name self;
     _deep_sleep := _deep_sleep self;
     _services := services;
     _device_info := _device_info self;
     atv_properties := atv_properties self |}.

(** A dictionary keeps its keys in the order in which they were first
    inserted, and [_services] as a finite map forgets it.  The methods that
    iterate over the dictionary read that order from [key_order], kept next
    to the configuration. *)
Record OrderedAppleTV : Type := mkOrdered {
  config : AppleTV;
  key_order : list Protocol
}.

Definition OrderedAppleTV_init (address : Z) (name : string) (deep_sleep : bool)
    (props : option (gmap string (gmap string string)))
    (device_info : option (gmap string string)) : OrderedAppleTV :=
  {| config := AppleTV_init address name deep_sleep props device_info;
     key_order := [] |}.

(** [add_service] with the key order: a new key goes to the end, a key
    already present keeps its place. *)
Definition ordered_add_service `{SI : ServiceInterface} (self : OrderedAppleTV)
    (service : BaseService) : OrderedAppleTV :=
  {| config := add_service (config self) service;
     key_order :=
       match _services (config self) !! protocol service with
       | Some _ => key_order self
       | None => key_order self ++ [protocol service]
       end |}.

Definition ordered_set_credentials (self : OrderedAppleTV) (p : Protocol)
    (creds : string) : bool * OrderedAppleTV :=
  (fst (set_credentials (config self) p creds),
   {| config := snd (set_credentials (config self) p creds);
      key_order := key_order self |}).

(** [services]: [list(self._services.values())]. *)
Definition services (self : OrderedAppleTV) : list BaseService :=
  omap (fun p => _services (config self) !! p) (key_order self).

(** [ready]: some service has a non-empty identifier. *)
Definition ready (self : OrderedAppleTV) : bool :=
  existsb (fun service => truthy (svc_identifier service)) (services self).

(** [all_identifiers]: the identifiers that are not [None], in the order of
    the services. *)
Definition all_identifiers (self : OrderedAppleTV) : list string :=
  omap svc_identifier (services self).

(** The key order describes the dictionary: every key once, and the keys
    listed are the keys stored. *)
Definition dict_wf (self : OrderedAppleTV) : Prop :=
  NoDup (key_order self)
  /\ forall p : Protocol, p ∈ key_order self <-> is_Some (_services (config self) !! p).

(** [BaseService.__init__] as the subclasses call it (the base class is not
    part of the sources): the four arguments are stored, an omitted
    [properties] is the empty mapping. *)
Definition BaseService_init (ident : option string) (prot : Protocol)
    (port_number : Z) (props : option (gmap string string)) : BaseService :=
  {| svc_identifier := ident; protocol := prot; port := port_number;
     properties := default ∅ props; credentials := None; password := None |}.

(** [self.password = value]. *)
Definition set_service_password (s : BaseService) (pwd : option string) : BaseService :=
  {| svc_identifier := svc_identifier s; protocol := protocol s; port := port s;
     properties := properties s; credentials := credentials s; password := pwd |}.

(** The five service classes.  An argument with a default value is an
    [option], [None] standing for the omitted argument. *)
Definition DmapService (ident creds : option string) (port_number : option Z)
    (props : option (gmap string string)) : BaseService :=
  set_service_credentials
    (BaseService_init ident DMAP (default 3689%Z port_number) props) creds.

Definition MrpService (ident : option string) (port_number : Z)
    (creds : option string) (props : option (gmap string string)) : BaseService :=
  set_service_credentials (BaseService_init ident MRP port_number props) creds.

Definition AirPlayService (ident : option string) (port_number : option Z)
    (creds : option string) (props : option (gmap string string)) : BaseService :=
  set_service_credentials
    (BaseService_init ident AirPlay (default 7000%Z port_number) props) creds.

Definition CompanionService (port_number : Z) (creds : option string)
    (props : option (gmap string string)) : BaseService :=
  set_service_credentials (BaseService_init None Companion port_number props) creds.

Definition RaopService (ident : option string) (port_number : option Z)
    (creds pwd : option string) (props : option (gmap string string)) : BaseService :=
  set_service_password
    (set_service_credentials
       (BaseService_init ident RAOP (default 7000%Z port_number) props) creds)
    pwd.

(** The calls that build up a configuration, and a configuration after a
    sequence of them. *)
Inductive config_call : Type :=
| AddService (service : BaseService)
| SetCredentials (p : Protocol) (creds : string).

Definition config_invoke `{SI : ServiceInterface} (self : OrderedAppleTV)
    (c : config_call) : OrderedAppleTV :=
  match c with
  | AddService service => ordered_add_service self service
  | SetCredentials p creds => snd (ordered_set_credentials self p creds)
  end.

Definition config_session `{SI : ServiceInterface} (self : OrderedAppleTV)
    (cs : list config_call) : OrderedAppleTV :=
  foldl config_invoke self cs.

End Conf.

(** ** Concrete collaborators for the closed examples *)

Module Fixtures.

Definition hex_digit (c : ascii) : option Z :=
  let n := Z.of_nat (nat_of_ascii c) in
  if ((48 <=? n) && (n <=? 57))%Z then Some (n - 48)%Z
  else if ((97 <=? n) && (n <=? 102))%Z then Some (n - 87)%Z
  else if ((65 <=? n) && (n <=? 70))%Z then Some (n - 55)%Z
  else None.

Fixpoint hex_value (acc : Z) (s : string) : option Z :=
  match s with
  | EmptyString => Some acc
  | String c rest =>
      match hex_digit c with
      | Some d => hex_value (16 * acc + d)%Z rest
      | None => None
      end
  end.

(** Modelled from the spec: [features.parse] (not part of the sources), a
    bitmask parsed from a hexadecimal string such as ["0x18000000"]; any
    other text is refused. *)
Definition parse_hex (s : string) : result Z :=
  match s with
  | String "0"%char (String "x"%char (String c rest)) =>
      match hex_value 0%Z (String c rest) with
      | Some v => Ok v
      | None => Raise (ExternalError "ValueError" ("invalid feature string: " ++ s))
      end
  | _ => Raise (ExternalError "ValueError" ("invalid feature string: " ++ s))
  end.

Definition credentials_of (t : AuthenticationType) : HapCredentials :=
  {| type := t; identifier := None; long_term_public_key := [];
     long_term_secret_key := None; extra := [] |}.

(** A codec with one token per scheme. *)
Definition token_of (c : HapCredentials) : string :=
  match type c with
  | Null => "::::"
  | Legacy => "legacy-token"
  | HAP => "hap-token"
  | Transient => "transient-token"
  end.

Definition parse_token (s : string) : result HapCredentials :=
  if String.eqb s "::::" then Ok (credentials_of Null)
  else if String.eqb s "legacy-token" then Ok (credentials_of Legacy)
  else if String.eqb s "hap-token" then Ok (credentials_of HAP)
  else if String.eqb s "transient-token" then Ok (credentials_of Transient)
  else Raise (ExternalError "InvalidCredentialsError" s).

Definition codec : HapPairing :=
  {| parse_credentials := parse_token;
     credentials_str := token_of;
     NO_CREDENTIALS := credentials_of Null;
     TRANSIENT_CREDENTIALS := credentials_of Transient |}.

(** A peer that completes every handshake and derives keys from the
    labels it is given; the two flags sit where the specification's
    scenario ["0x18000000"] puts them. *)
Definition peer : AirPlayAuth.Collaborators :=
  {| AirPlayAuth.new_credentials := credentials_of Legacy;
     AirPlayAuth.handshake_verify_credentials := fun _ => Ok true;
     AirPlayAuth.handshake_encryption_keys :=
       fun _ salt output_info input_key =>
         Ok (salt ++ "/" ++ output_info, salt ++ "/" ++ input_key);
     AirPlayAuth.ft_parse := parse_hex;
     AirPlayAuth.SupportsSystemPairing := 0x08000000%Z;
     AirPlayAuth.SupportsCoreUtilsPairingAndEncryption := 0x10000000%Z |}.

Definition plain_connection : AirPlayAuth.HttpConnection :=
  {| AirPlayAuth.receive_processor := AirPlayAuth.identity;
     AirPlayAuth.send_processor := AirPlayAuth.identity |}.

(** An AirPlay service without a stored credential that advertises
    [props]. *)
Definition airplay_service (creds : option string) (props : gmap string string)
  : BaseService :=
  {| svc_identifier := Some "airplay-id"; protocol := AirPlay; port := 7000%Z;
     properties := props; credentials := creds; password := None |}.

Definition mrp_service (creds : option string) : BaseService :=
  {| svc_identifier := Some "mrp-id"; protocol := MRP; port := 49152%Z;
     properties := ∅; credentials := creds; password := None |}.

(** A device that answers every handshake, and one whose verify step
    fails. *)
Definition willing_device : MrpPairing.Device :=
  {| MrpPairing.start_pairing := fun _ => Ok tt;
     MrpPairing.finish_pairing := fun _ _ _ => Ok (credentials_of HAP);
     MrpPairing.verifier_verify_credentials := fun _ _ => Ok true |}.

Definition failing_verify_device : MrpPairing.Device :=
  {| MrpPairing.start_pairing := fun _ => Ok tt;
     MrpPairing.finish_pairing := fun _ _ _ => Ok (credentials_of HAP);
     MrpPairing.verifier_verify_credentials :=
       fun _ _ => Raise (ExternalError "AuthenticationError" "verify failed") |}.

(** A handler just constructed for a service that already stores a
    credential. *)
Definition fresh_handler : MrpPairing.MrpPairingHandler :=
  MrpPairing.MrpPairingHandler_init (mrp_service (Some "old")).

Definition atv : Conf.AppleTV :=
  {| Conf._address := 0x0A000001%Z; Conf._name := "Living Room";
     Conf._deep_sleep := false;
     Conf._services := <[MRP := mrp_service (Some "old")]>
                         (<[AirPlay := airplay_service None ∅]> ∅);
     Conf._device_info := ∅; Conf.atv_properties := ∅ |}.

(** A peer whose verify handshake fails. *)
Definition refusing_peer : AirPlayAuth.Collaborators :=
  {| AirPlayAuth.new_credentials := credentials_of Legacy;
     AirPlayAuth.handshake_verify_credentials :=
       fun _ => Raise (ExternalError "AuthenticationError" "verify failed");
     AirPlayAuth.handshake_encryption_keys :=
       fun _ _ _ _ => Raise (NotSupportedError "no keys");
     AirPlayAuth.ft_parse := parse_hex;
     AirPlayAuth.SupportsSystemPairing := 0x08000000%Z;
     AirPlayAuth.SupportsCoreUtilsPairingAndEncryption := 0x10000000%Z |}.

(** A merge that takes over the credentials of the other object when it has
    some. *)
Definition merging : Conf.ServiceInterface :=
  {| Conf.merge := fun existing other =>
       set_service_credentials existing
         (match credentials other with
          | Some c => Some c
          | None => credentials existing
          end) |}.

Definition new_atv : Conf.OrderedAppleTV :=
  Conf.OrderedAppleTV_init 0x0A000001%Z "Living Room" false None None.

(** A configuration with an AirPlay and then an MRP service. *)
Definition two_services : Conf.OrderedAppleTV :=
  Conf.config_session (SI := merging) new_atv
    [Conf.AddService (Conf.AirPlayService (Some "airplay-id") None None None);
     Conf.AddService (Conf.MrpService (Some "mrp-id") 49152%Z (Some "old") None)].

End Fixtures.

(** * Properties *)

(** ** Authentication selection ([AirPlayAuth]) *)

Module AirPlayAuthFacts.
Import AirPlayAuth.

Section Facts.
Context `{HP : HapPairing} `{CO : Collaborators}.

Lemma flag_in_land (flag features : Z) :
  flag_in flag features = true <-> Z.land flag features = flag.
Proof. unfold flag_in. apply Z.eqb_eq. Qed.

(** A flag that is a single bit is contained exactly when that bit of
    the mask is set. *)
Lemma flag_in_testbit (k features : Z) :
  (0 <= k)%Z ->
  flag_in (2 ^ k) features = Z.testbit features k.
Proof.
  intros Hk. unfold flag_in.
  destruct (Z.testbit features k) eqn:Hb.
  - apply Z.eqb_eq. apply Z.bits_inj'. intros n Hn.
    rewrite Z.land_spec. destruct (Z.eq_dec n k) as [->|Hne].
    + rewrite Hb. apply andb_true_r.
    + rewrite Z.pow2_bits_false by lia. reflexivity.
  - apply Z.eqb_neq. intros Heq.
    assert (Z.testbit (Z.land (2 ^ k) features) k = Z.testbit (2 ^ k) k)
      as Hk' by (rewrite Heq; reflexivity).
    rewrite Z.land_spec, Hb, Z.pow2_bits_true in Hk' by lia.
    discriminate.
Qed.

(** C7: the null verifier reports [False] from [verify_credentials()]
    whenever it is asked, and its [encryption_keys] raises
    [NotSupportedError] whatever the three arguments are. *)
Theorem null_verifier_never_yields_keys :
  verify_credentials NullPairVerifyProcedure = Ok false
  /\ forall salt output_info input_key : string,
       encryption_keys NullPairVerifyProcedure salt output_info input_key
       = Raise (NotSupportedError
                  "encryption keys not supported by null implementation").
Proof. split; [reflexivity | intros; reflexivity]. Qed.

(** C1: [pair_verify] dispatches on [credentials.type] alone: the Null
    verifier for [Null], the Legacy verifier (legacy engine seeded with
    the credentials) for [Legacy], the HAP verifier (fresh engine plus the
    credentials) for [HAP], and the transient HAP verifier (fresh engine,
    no credentials) for every other type. *)
Theorem pair_verify_dispatch (c : HapCredentials) (connection : HttpConnection) :
  (type c = Null ->
     pair_verify c connection = NullPairVerifyProcedure)
  /\ (type c = Legacy ->
     pair_verify c connection =
       AirPlayLegacyPairVerifyProcedure connection
         (LegacySRPAuthHandler_initialize (LegacySRPAuthHandler_new c)))
  /\ (type c = HAP ->
     pair_verify c connection =
       AirPlayHapPairVerifyProcedure connection
         (SRPAuthHandler_initialize SRPAuthHandler_new) c)
  /\ (type c <> Null -> type c <> Legacy -> type c <> HAP ->
     pair_verify c connection =
       AirPlayHapTransientPairVerifyProcedure connection
         (SRPAuthHandler_initialize SRPAuthHandler_new)).
Proof.
  unfold pair_verify.
  repeat split; intros; repeat case_decide; congruence.
Qed.

(** C2: [pair_setup] returns the Legacy procedure for [Legacy], the HAP
    procedure for [HAP], and raises [NotSupportedError] for every other
    type, [Transient] and [Null] among them. *)
Theorem pair_setup_dispatch (connection : HttpConnection) :
  pair_setup Legacy connection =
    Ok (AirPlayLegacyPairSetupProcedure connection
          (LegacySRPAuthHandler_initialize
             (LegacySRPAuthHandler_new new_credentials)))
  /\ pair_setup HAP connection =
    Ok (AirPlayHapPairSetupProcedure connection
          (SRPAuthHandler_initialize SRPAuthHandler_new))
  /\ (forall t : AuthenticationType,
        t <> Legacy -> t <> HAP ->
        pair_setup t connection =
          Raise (NotSupportedError
                   ("authentication type " ++ AuthenticationType_str t
                    ++ " does not support Pair-Setup")))
  /\ is_ok (pair_setup Transient connection) = false
  /\ is_ok (pair_setup Null connection) = false.
Proof.
  unfold pair_setup.
  repeat split; intros; repeat case_decide; congruence.
Qed.

(** C5: a stored credential token decides alone: the result is its parse,
    whatever the flags say.  Without one, the ["features"] property
    (["0x0"] when absent) is parsed, and the transient sentinel is
    returned when the mask contains the system-pairing flag or the
    core-utils-pairing-and-encryption flag, the no-credentials sentinel
    otherwise. *)
Theorem extract_credentials_cases (service : BaseService) :
  (forall token : string,
     credentials service = Some token ->
     extract_credentials service = parse_credentials token)
  /\ (forall features : Z,
     credentials service = None ->
     ft_parse (default "0x0" (properties service !! "features")) = Ok features ->
     (Z.land SupportsSystemPairing features = SupportsSystemPairing
      \/ Z.land SupportsCoreUtilsPairingAndEncryption features
         = SupportsCoreUtilsPairingAndEncryption) ->
     extract_credentials service = Ok TRANSIENT_CREDENTIALS)
  /\ (forall features : Z,
     credentials service = None ->
     ft_parse (default "0x0" (properties service !! "features")) = Ok features ->
     Z.land SupportsSystemPairing features <> SupportsSystemPairing ->
     Z.land SupportsCoreUtilsPairingAndEncryption features
       <> SupportsCoreUtilsPairingAndEncryption ->
     extract_credentials service = Ok NO_CREDENTIALS).
Proof.
  unfold extract_credentials, features_property.
  split; [|split].
  - intros token ->. reflexivity.
  - intros features -> -> Hflag. cbn.
    destruct Hflag as [Hflag|Hflag]; apply flag_in_land in Hflag;
      rewrite Hflag; [reflexivity | rewrite orb_true_r; reflexivity].
  - intros features -> -> Hsys Hcore. cbn.
    destruct (flag_in SupportsSystemPairing features) eqn:E1;
      [apply flag_in_land in E1; contradiction|].
    destruct (flag_in SupportsCoreUtilsPairingAndEncryption features) eqn:E2;
      [apply flag_in_land in E2; contradiction|].
    reflexivity.
Qed.

(** The two assignments of [verify_connection] come as a pair: whatever
    the outcome, the connection is either untouched or has both hooks
    bound to one keyed session. *)
Lemma verify_connection_all_or_nothing
    (c : HapCredentials) (connection connection' : HttpConnection)
    (r : result PairVerifyProcedure) :
  verify_connection c connection = (r, connection') ->
  connection' = connection
  \/ exists output_key input_key : string,
       let session := HAPSession_enable output_key input_key HAPSession_new in
       connection' = {| receive_processor := session_decrypt session;
                        send_processor := session_encrypt session |}.
Proof.
  unfold verify_connection.
  destruct (verify_credentials (pair_verify c connection)) as [[|]|e].
  - destruct (encryption_keys _ _ _ _) as [[ok ik]|e];
      intros [= <- <-]; [right; exists ok, ik; reflexivity | left; reflexivity].
  - intros [= <- <-]. left; reflexivity.
  - intros [= <- <-]. left; reflexivity.
Qed.

(** C6: when [verify_connection] returns, it returns the verifier that
    [pair_verify] built.  If that verifier reported [True], keys were
    derived with the labels ["Control-Salt"],
    ["Control-Write-Encryption-Key"] and ["Control-Read-Encryption-Key"],
    and the receive hook is the decrypt method and the send hook the
    encrypt method of one session enabled with those keys, neither being
    the identity any more.  If it reported [False], the connection is the
    one that was passed in. *)
Theorem verify_connection_installs_encryption
    (c : HapCredentials) (connection connection' : HttpConnection)
    (verifier : PairVerifyProcedure) :
  verify_connection c connection = (Ok verifier, connection') ->
  verifier = pair_verify c connection
  /\ (verify_credentials verifier = Ok true ->
      exists output_key input_key : string,
        encryption_keys verifier
          "Control-Salt" "Control-Write-Encryption-Key"
          "Control-Read-Encryption-Key" = Ok (output_key, input_key)
        /\ receive_processor connection' =
             session_decrypt
               (HAPSession_enable output_key input_key HAPSession_new)
        /\ send_processor connection' =
             session_encrypt
               (HAPSession_enable output_key input_key HAPSession_new)
        /\ receive_processor connection' <> identity
        /\ send_processor connection' <> identity)
  /\ (verify_credentials verifier = Ok false -> connection' = connection)
  /\ (exists b : bool, verify_credentials verifier = Ok b).
Proof.
  unfold verify_connection.
  destruct (verify_credentials (pair_verify c connection)) as [[|]|e] eqn:Hv.
  - destruct (encryption_keys _ _ _ _) as [[ok ik]|e] eqn:Hk; [|discriminate].
    intros [= <- <-]. split; [reflexivity|]. rewrite Hv.
    split; [|split; [discriminate | eauto]].
    intros _. exists ok, ik. cbn. repeat split; try discriminate.
    exact Hk.
  - intros [= <- <-]. split; [reflexivity|]. rewrite Hv.
    split; [discriminate | split; eauto].
  - discriminate.
Qed.

(** [verify_connection] does return whenever the handshake and the key
    derivation do. *)
Lemma verify_connection_returns (c : HapCredentials) (connection : HttpConnection) :
  (verify_credentials (pair_verify c connection) = Ok false
   \/ (verify_credentials (pair_verify c connection) = Ok true
       /\ is_ok (encryption_keys (pair_verify c connection)
                   CONTROL_SALT CONTROL_OUTPUT_INFO CONTROL_INPUT_INFO) = true)) ->
  fst (verify_connection c connection) = Ok (pair_verify c connection).
Proof.
  unfold verify_connection.
  intros [-> | [-> Hk]]; [reflexivity|].
  destruct (encryption_keys _ _ _ _) as [[ok ik]|e]; [reflexivity | discriminate].
Qed.

End Facts.

(** The scenario of the specification: both flags advertised, nothing
    stored. *)
Lemma extract_credentials_cases_witness :
  AirPlayAuth.extract_credentials (HP := Fixtures.codec) (CO := Fixtures.peer)
    (Fixtures.airplay_service None {["features" := "0x18000000"]})
  = Ok (TRANSIENT_CREDENTIALS (HapPairing := Fixtures.codec)).
Proof.
  apply (proj1 (proj2 (extract_credentials_cases (HP := Fixtures.codec)
                         (CO := Fixtures.peer) _)) 0x18000000%Z).
  - reflexivity.
  - vm_compute. reflexivity.
  - left. vm_compute. reflexivity.
Defined.

Lemma pair_verify_dispatch_witness :
  pair_verify (Fixtures.credentials_of Transient) Fixtures.plain_connection
  = AirPlayHapTransientPairVerifyProcedure Fixtures.plain_connection
      (SRPAuthHandler_initialize SRPAuthHandler_new).
Proof.
  apply (proj2 (proj2 (proj2 (pair_verify_dispatch
                                (Fixtures.credentials_of Transient)
                                Fixtures.plain_connection))));
    simpl; discriminate.
Defined.

Lemma pair_setup_dispatch_witness :
  pair_setup (CO := Fixtures.peer) Transient Fixtures.plain_connection
  = Raise (NotSupportedError
             "authentication type AuthenticationType.Transient does not support Pair-Setup").
Proof.
  apply (proj1 (proj2 (proj2 (pair_setup_dispatch (CO := Fixtures.peer)
                                Fixtures.plain_connection))) Transient);
    discriminate.
Defined.

Lemma verify_connection_installs_encryption_witness :
  let connection' :=
    snd (verify_connection (CO := Fixtures.peer)
           (Fixtures.credentials_of HAP) Fixtures.plain_connection) in
  receive_processor connection' <> identity
  /\ send_processor connection' <> identity.
Proof.
  destruct (verify_connection_installs_encryption (CO := Fixtures.peer)
              (Fixtures.credentials_of HAP) Fixtures.plain_connection
              (snd (verify_connection (CO := Fixtures.peer)
                      (Fixtures.credentials_of HAP) Fixtures.plain_connection))
              (pair_verify (Fixtures.credentials_of HAP) Fixtures.plain_connection))
    as (_ & Hkeys & _ & _).
  - vm_compute. reflexivity.
  - destruct (Hkeys eq_refl) as (ok & ik & _ & _ & _ & Hr & Hs).
    split; assumption.
Defined.

End AirPlayAuthFacts.

(** ** The interactive pairing handler ([MrpPairing]) *)

Module MrpPairingFacts.
Import MrpPairing.

Section Facts.
Context `{HP : HapPairing} `{DEV : Device}.

(** The guard of [finish]: a missing or empty PIN raises at once and the
    handler object is not touched. *)
Lemma finish_no_pin (h : MrpPairingHandler) :
  truthy (pin_code h) = false ->
  finish h = (Raise (PairingError "no pin given"), h).
Proof.
  intros Hpin. unfold finish, bind, get_pin_code. rewrite Hpin. reflexivity.
Qed.

(** Past the guard [finish] is the two handshakes in sequence, with the
    two attribute writes after them. *)
Lemma finish_with_pin (h : MrpPairingHandler) (p : string) :
  pin_code h = Some p -> p <> "" ->
  finish h =
    let h1 := snd (perform (FinishPairing "" p) (fun _ => Ok tt) h) in
    match finish_pairing (exchanged h) "" p with
    | Raise e => (Raise (PairingError (exception_str e)), h1)
    | Ok c =>
        match parse_credentials (credentials_str c) with
        | Raise e => (Raise e, h1)
        | Ok parsed =>
            let h2 := snd (perform (VerifyCredentials parsed) (fun _ => Ok tt) h1) in
            match verifier_verify_credentials (exchanged h1) parsed with
            | Raise e => (Raise (PairingError (exception_str e)), h2)
            | Ok _ =>
                (Ok tt,
                 snd (set_has_paired true
                        (snd (set_service_credentials_attr (credentials_str c) h2))))
            end
        end
    end.
Proof.
  intros Hpin Hne. unfold finish, bind, get_pin_code. rewrite Hpin.
  assert (truthy (Some p) = true) as ->.
  { cbn. destruct (String.eqb_spec p ""); [contradiction | reflexivity]. }
  cbn.
  destruct (finish_pairing (exchanged h) "" p) as [c|e]; cbn; [|reflexivity].
  destruct (parse_credentials (credentials_str c)) as [parsed|e]; cbn; [|reflexivity].
  destruct (verifier_verify_credentials _ parsed) as [b|e]; reflexivity.
Qed.

Lemma truthy_cases (o : option string) :
  (truthy o = false /\ (o = None \/ o = Some ""))
  \/ (exists p, o = Some p /\ p <> "" /\ truthy o = true).
Proof.
  destruct o as [p|]; cbn; [|left; auto].
  destruct (String.eqb_spec p "") as [->|Hne]; [left; auto|].
  right. exists p. auto.
Qed.

(** Calls other than [pin] keep a handler without PIN and not yet paired
    in that condition. *)
Lemma invoke_keeps_unpaired (c : call) (h : MrpPairingHandler) :
  is_pin_call c = false ->
  pin_code h = None -> _has_paired h = false ->
  pin_code (snd (invoke c h)) = None /\ _has_paired (snd (invoke c h)) = false.
Proof.
  intros Hc Hpin Hpaired. destruct c; try discriminate; unfold invoke.
  - cbn. auto.
  - rewrite finish_no_pin by (rewrite Hpin; reflexivity). auto.
  - cbn. auto.
Qed.

Lemma session_keeps_unpaired (cs : list call) (h : MrpPairingHandler) :
  forallb (fun c => negb (is_pin_call c)) cs = true ->
  pin_code h = None -> _has_paired h = false ->
  pin_code (session cs h) = None /\ _has_paired (session cs h) = false.
Proof.
  revert h. induction cs as [|c cs IH]; intros h Hcs Hpin Hpaired; cbn in *.
  - auto.
  - apply andb_prop in Hcs as [Hc Hcs]. apply negb_true_iff in Hc.
    destruct (invoke_keeps_unpaired c h Hc Hpin Hpaired) as [Hpin' Hpaired'].
    apply IH; assumption.
Qed.

(** C3: on a handler on which [pin()] was never called, whatever else was
    called before, [finish()] raises [PairingError("no pin given")] at
    once: the handler object is exactly as before, so no handshake was
    run, and [has_paired] is false before and after. *)
Theorem finish_without_pin_raises (svc : BaseService) (cs : list call) :
  forallb (fun c => negb (is_pin_call c)) cs = true ->
  let h := session cs (MrpPairingHandler_init svc) in
  finish h = (Raise (PairingError "no pin given"), h)
  /\ exchanged (snd (finish h)) = exchanged h
  /\ has_paired h = false
  /\ has_paired (snd (finish h)) = false.
Proof.
  intros Hcs h.
  destruct (session_keeps_unpaired cs (MrpPairingHandler_init svc) Hcs
              eq_refl eq_refl) as [Hpin Hpaired].
  fold h in Hpin, Hpaired.
  assert (finish h = (Raise (PairingError "no pin given"), h)) as Hfin.
  { apply finish_no_pin. rewrite Hpin. reflexivity. }
  rewrite Hfin. cbn. unfold has_paired. auto.
Qed.

(** C4: [finish()] writes [service.credentials] and [has_paired] only on
    the path on which the finish_pairing handshake and then the
    Pair-Verify handshake both returned; when it raises, for the missing
    PIN, a failed handshake or an unparsable token, the service object
    and [has_paired] are as before the call; and a failure of either
    handshake makes it raise. *)
Theorem finish_commits_after_verify
    (h h' : MrpPairingHandler) (r : result unit) :
  finish h = (r, h') ->
  (is_ok r = true ->
     exists (p : string) (c parsed : HapCredentials) (b : bool),
       pin_code h = Some p
       /\ finish_pairing (exchanged h) "" p = Ok c
       /\ parse_credentials (credentials_str c) = Ok parsed
       /\ verifier_verify_credentials
            (exchanged h ++ [FinishPairing "" p]) parsed = Ok b
       /\ credentials (service h') = Some (credentials_str c)
       /\ has_paired h' = true)
  /\ (is_ok r = false ->
     service h' = service h /\ has_paired h' = has_paired h)
  /\ (forall (p : string) (e : exception),
        pin_code h = Some p ->
        finish_pairing (exchanged h) "" p = Raise e -> is_ok r = false)
  /\ (forall (p : string) (c parsed : HapCredentials) (e : exception),
        pin_code h = Some p ->
        finish_pairing (exchanged h) "" p = Ok c ->
        parse_credentials (credentials_str c) = Ok parsed ->
        verifier_verify_credentials
          (exchanged h ++ [FinishPairing "" p]) parsed = Raise e ->
        is_ok r = false).
Proof.
  intros Hfin.
  destruct (truthy_cases (pin_code h)) as [[Hf Hnone] | (p & Hp & Hne & _)].
  - rewrite (finish_no_pin h Hf) in Hfin. injection Hfin as <- <-.
    repeat split; try discriminate; auto.
  - rewrite (finish_with_pin h p Hp Hne) in Hfin. cbn in Hfin.
    destruct (finish_pairing (exchanged h) "" p) as [c|e] eqn:Hfp.
    + destruct (parse_credentials (credentials_str c)) as [parsed|e] eqn:Hparse.
      * destruct (verifier_verify_credentials _ parsed) as [b|e] eqn:Hver.
        -- injection Hfin as <- <-. split; [|split; [discriminate|split]].
           ++ intros _. exists p, c, parsed, b. repeat split; auto.
           ++ intros p' e Hp'. congruence.
           ++ intros p' c' parsed' e Hp' Hfp' Hparse' Hver'.
              assert (p' = p) as -> by congruence.
              assert (c' = c) as -> by congruence.
              assert (parsed' = parsed) as -> by congruence.
              congruence.
        -- injection Hfin as <- <-. repeat split; try discriminate; auto.
      * injection Hfin as <- <-. repeat split; try discriminate; auto.
    + injection Hfin as <- <-. repeat split; try discriminate; auto.
Qed.

Lemma string_length_app (s1 s2 : string) :
  String.length (s1 ++ s2) = (String.length s1 + String.length s2)%nat.
Proof.
  induction s1 as [|c s1 IH]; [reflexivity|].
  change (String c s1 ++ s2) with (String c (s1 ++ s2)).
  cbn [String.length]. rewrite IH. reflexivity.
Qed.

Lemma zeros_length (k : nat) : String.length (zeros k) = k.
Proof. induction k as [|k IH]; cbn; [reflexivity | rewrite IH; reflexivity]. Qed.

(** [zfill] never shortens, and pads exactly to the width what is
    shorter. *)
Lemma zfill_length (width : nat) (s : string) :
  String.length (zfill width s) = Nat.max width (String.length s).
Proof.
  unfold zfill. destruct (Nat.leb_spec width (String.length s)) as [Hle|Hlt];
    [lia|].
  destruct s as [|c rest]; cbn [String.length] in *.
  - rewrite zeros_length. lia.
  - destruct (Ascii.eqb c "+" || Ascii.eqb c "-"); cbn [String.length];
      rewrite string_length_app, zeros_length; cbn [String.length]; lia.
Qed.

(** Without a leading sign the padding is a plain left padding. *)
Lemma zfill_unsigned (width : nat) (c : ascii) (rest : string) :
  c <> "+"%char -> c <> "-"%char ->
  zfill width (String c rest)
  = zeros (width - String.length (String c rest)) ++ String c rest.
Proof.
  intros Hplus Hminus. unfold zfill.
  destruct (Nat.leb_spec width (String.length (String c rest))) as [Hle|Hlt].
  - replace (width - String.length (String c rest))%nat with 0%nat by lia.
    reflexivity.
  - apply Ascii.eqb_neq in Hplus, Hminus. rewrite Hplus, Hminus. reflexivity.
Qed.

Lemma zfill_nonempty (s : string) : zfill 4 s <> "".
Proof.
  intros Heq. pose proof (zfill_length 4 s) as Hlen.
  rewrite Heq in Hlen. cbn in Hlen. lia.
Qed.

(** The numerals of the PINs [0 .. 9999] have at most four digits. *)
Lemma four_digit_numerals (n : Z) :
  (0 <= n < 10000)%Z -> (String.length (py_str (PinInt n)) <= 4)%nat.
Proof.
  intros Hn.
  assert (forallb (fun k => (String.length (py_str (PinInt (Z.of_nat k))) <=? 4)%nat)
            (seq 0 (Z.to_nat 10000)) = true) as Hall by (vm_compute; reflexivity).
  rewrite forallb_forall in Hall.
  specialize (Hall (Z.to_nat n)).
  rewrite Z2Nat.id in Hall by lia.
  apply Nat.leb_le, Hall, in_seq. lia.
Qed.

(** C9: [pin(v)] returns normally and leaves [str(v).zfill(4)] in
    [pin_code]: the numeral of [v] with zeros on the left up to four
    characters (exactly four for the PINs [0 .. 9999]).  No handshake is
    run and no other attribute changes, and a second [pin()] call
    replaces what the first one stored. *)
Theorem pin_stores_zero_filled (v : pin_value) (h : MrpPairingHandler) :
  let h' := snd (pin v h) in
  fst (pin v h) = Ok tt
  /\ pin_code h' = Some (zfill 4 (py_str v))
  /\ (4 <= String.length (zfill 4 (py_str v)))%nat
  /\ ((String.length (py_str v) <= 4)%nat ->
      String.length (zfill 4 (py_str v)) = 4%nat)
  /\ (forall n : Z, v = PinInt n -> (0 <= n < 10000)%Z ->
      String.length (zfill 4 (py_str v)) = 4%nat)
  /\ exchanged h' = exchanged h
  /\ service h' = service h
  /\ _has_paired h' = _has_paired h
  /\ connection_closed h' = connection_closed h
  /\ (forall v2 : pin_value,
        pin_code (snd (pin v2 h')) = Some (zfill 4 (py_str v2))
        /\ snd (pin v2 h') = snd (pin v2 h)).
Proof.
  cbn. repeat split; try reflexivity.
  - rewrite zfill_length. lia.
  - intros Hlen. rewrite zfill_length. lia.
  - intros n -> Hn. rewrite zfill_length.
    pose proof (four_digit_numerals n Hn). lia.
Qed.

(** C8, as the code has it: [pin()] carries no guard, it is accepted and
    recorded in every state of the handler, before [begin()] too; the one
    guard of [finish()] is that a non-empty PIN is recorded: without one
    it raises at once, with one it goes on to the finish_pairing
    handshake whether or not [begin()] ran; and after any [pin()] call
    that guard is passed. *)
Theorem pin_unguarded_finish_needs_pin (h : MrpPairingHandler) :
  (forall v : pin_value,
     is_ok (fst (pin v h)) = true
     /\ pin_code (snd (pin v h)) = Some (zfill 4 (py_str v))
     /\ truthy (pin_code (snd (pin v h))) = true)
  /\ (truthy (pin_code h) = false ->
      finish h = (Raise (PairingError "no pin given"), h))
  /\ (forall p : string,
        pin_code h = Some p -> p <> "" ->
        exists rest : list exchange,
          exchanged (snd (finish h))
          = (exchanged h ++ FinishPairing "" p :: rest)%list).
Proof.
  split; [|split].
  - intros v. cbn. repeat split.
    destruct (String.eqb_spec (zfill 4 (py_str v)) "") as [Heq|Hne];
      [exfalso; exact (zfill_nonempty _ Heq) | reflexivity].
  - apply finish_no_pin.
  - intros p Hp Hne. rewrite (finish_with_pin h p Hp Hne). cbn.
    destruct (finish_pairing (exchanged h) "" p) as [c|e]; cbn;
      [|exists []; reflexivity].
    destruct (parse_credentials (credentials_str c)) as [parsed|e]; cbn;
      [|exists []; reflexivity].
    destruct (verifier_verify_credentials _ parsed) as [b|e]; cbn;
      exists [VerifyCredentials parsed]; rewrite <- app_assoc; reflexivity.
Qed.

End Facts.

Lemma finish_without_pin_raises_witness :
  finish (HP := Fixtures.codec) (DEV := Fixtures.willing_device)
    (session (HP := Fixtures.codec) (DEV := Fixtures.willing_device)
       [CallBegin; CallFinish; CallClose] Fixtures.fresh_handler)
  = (Raise (PairingError "no pin given"),
     session (HP := Fixtures.codec) (DEV := Fixtures.willing_device)
       [CallBegin; CallFinish; CallClose] Fixtures.fresh_handler).
Proof.
  destruct (finish_without_pin_raises (HP := Fixtures.codec)
              (DEV := Fixtures.willing_device)
              (Fixtures.mrp_service (Some "old"))
              [CallBegin; CallFinish; CallClose] eq_refl) as (Hraise & _).
  exact Hraise.
Defined.

(** A session whose verify step fails: the credential stored before the
    call is still there. *)
Lemma finish_commits_after_verify_witness :
  let h := session (HP := Fixtures.codec) (DEV := Fixtures.failing_verify_device)
             [CallBegin; CallPin (PinInt 1234)] Fixtures.fresh_handler in
  let h' := snd (finish (HP := Fixtures.codec)
                   (DEV := Fixtures.failing_verify_device) h) in
  service h' = service h /\ has_paired h' = has_paired h.
Proof.
  intros h h'.
  destruct (finish_commits_after_verify (HP := Fixtures.codec)
              (DEV := Fixtures.failing_verify_device) h h'
              (Raise (PairingError "verify failed"))) as (_ & Hfail & _).
  - vm_compute. reflexivity.
  - apply Hfail. reflexivity.
Defined.

Lemma pin_stores_zero_filled_witness :
  String.length (zfill 4 (py_str (PinInt 7))) = 4%nat
  /\ pin_code (snd (pin (PinInt 7) Fixtures.fresh_handler)) = Some "0007".
Proof.
  destruct (pin_stores_zero_filled (PinInt 7) Fixtures.fresh_handler)
    as (_ & Hcode & _ & _ & Hfour & _).
  split.
  - apply (Hfour 7%Z); [reflexivity | lia].
  - exact Hcode.
Defined.

Lemma pin_unguarded_finish_needs_pin_witness :
  finish (HP := Fixtures.codec) (DEV := Fixtures.willing_device) Fixtures.fresh_handler
  = (Raise (PairingError "no pin given"), Fixtures.fresh_handler).
Proof.
  destruct (pin_unguarded_finish_needs_pin (HP := Fixtures.codec)
              (DEV := Fixtures.willing_device) Fixtures.fresh_handler) as (_ & Hguard & _).
  apply Hguard. reflexivity.
Defined.

(** C8 does not hold of the code as it is stated: on a handler on which
    [begin()] has not run (nothing exchanged, the state the specification
    calls Created and in which its state machine rejects [pin()]),
    [pin(1234)] returns normally and records ["1234"]; a [finish()] straight
    after it runs both handshakes and pairs, with no [begin()] at all. *)
Lemma pin_before_begin_is_recorded :
  exchanged Fixtures.fresh_handler = []
  /\ SpecStateMachine.guarded_pin SpecStateMachine.Created = None
  /\ pin (PinInt 1234) Fixtures.fresh_handler
     = (Ok tt,
        {| service := Fixtures.mrp_service (Some "old");
           connection_closed := false; pin_code := Some "1234";
           _has_paired := false; exchanged := [] |})
  /\ is_ok (fst (pin (PinInt 1234) Fixtures.fresh_handler)) <> false
  /\ pin_code (snd (pin (PinInt 1234) Fixtures.fresh_handler)) <> pin_code Fixtures.fresh_handler
  /\ session (HP := Fixtures.codec) (DEV := Fixtures.willing_device)
       [CallPin (PinInt 1234); CallFinish] Fixtures.fresh_handler
     = {| service := Fixtures.mrp_service (Some "hap-token");
          connection_closed := false; pin_code := Some "1234";
          _has_paired := true;
          exchanged := [FinishPairing "" "1234";
                        VerifyCredentials (Fixtures.credentials_of HAP)] |}.
Proof.
  repeat split; try discriminate; vm_compute; reflexivity.
Qed.

End MrpPairingFacts.

(** ** The device configuration ([Conf]) *)

Module ConfFacts.
Import Conf.

(** C10: with a service registered for [p], [set_credentials] returns
    [True]; afterwards that service differs from before in its
    [credentials] alone, which hold the new string, every other protocol
    has the service it had and the other attributes of the configuration
    are as before.  With none registered it returns [False] and the
    configuration is the same; it has no raising path. *)
Theorem set_credentials_frame (self : AppleTV) (p : Protocol) (creds : string) :
  let self' := snd (set_credentials self p creds) in
  (forall service : BaseService,
     get_service self p = Some service ->
     fst (set_credentials self p creds) = true
     /\ get_service self' p = Some (set_service_credentials service (Some creds))
     /\ (forall service' : BaseService,
           get_service self' p = Some service' ->
           credentials service' = Some creds
           /\ svc_identifier service' = svc_identifier service
           /\ protocol service' = protocol service
           /\ port service' = port service
           /\ properties service' = properties service
           /\ password service' = password service))
  /\ (get_service self p = None ->
      set_credentials self p creds = (false, self))
  /\ (forall q : Protocol, q <> p -> get_service self' q = get_service self q)
  /\ dom (_services self') = dom (_services self)
  /\ _address self' = _address self
  /\ _name self' = _name self
  /\ _deep_sleep self' = _deep_sleep self
  /\ _device_info self' = _device_info self
  /\ atv_properties self' = atv_properties self.
Proof.
  unfold set_credentials, get_service.
  destruct (_services self !! p) as [service|] eqn:Hget; cbn.
  - split; [|split; [discriminate|]].
    + intros s [= <-]. rewrite lookup_insert_eq. split; [reflexivity|].
      split; [reflexivity|]. intros s' [= <-]. cbn. repeat split.
    + split; [intros q Hq; rewrite lookup_insert_ne by congruence; reflexivity|].
      split; [|repeat split].
      apply dom_insert_lookup_L. rewrite Hget. eauto.
  - split; [discriminate|]. repeat split.
Qed.

Lemma set_credentials_frame_witness :
  fst (set_credentials Fixtures.atv MRP "new") = true
  /\ get_service (snd (set_credentials Fixtures.atv MRP "new")) MRP
     = Some (Fixtures.mrp_service (Some "new"))
  /\ set_credentials Fixtures.atv Companion "new" = (false, Fixtures.atv).
Proof.
  destruct (set_credentials_frame Fixtures.atv MRP "new")
    as (Hset & _).
  destruct (Hset (Fixtures.mrp_service (Some "old")) eq_refl)
    as (Hret & Hget & _).
  destruct (set_credentials_frame Fixtures.atv Companion "new")
    as (_ & Hnone & _).
  split; [exact Hret|]. split; [exact Hget|]. apply Hnone. reflexivity.
Defined.

End ConfFacts.


(** * Further properties *)

(** ** Authentication selection, continued *)

Module AirPlayAuthMore.
Import AirPlayAuth.

Section Facts.
Context `{HP : HapPairing} `{CO : Collaborators}.

(** X1: With credentials of type [Null], [verify_connection] runs no handshake
    at all: whatever the peer would answer, it returns the null verifier and
    the connection is the one passed in, hooks included. *)
Theorem verify_connection_null_is_noop
    (c : HapCredentials) (connection : HttpConnection) :
  type c = Null ->
  verify_connection c connection = (Ok NullPairVerifyProcedure, connection).
Proof.
  intros Hnull. unfold verify_connection, pair_verify.
  rewrite decide_True by exact Hnull. reflexivity.
Qed.


(** X3: Without a stored credential, [extract_credentials] passes a failure of
    [features.parse] on as it is, and what it returns otherwise is one of the
    two sentinels: it never builds credentials of its own. *)
Theorem extract_credentials_without_token (service : BaseService) :
  credentials service = None ->
  (forall e : exception,
     ft_parse (default "0x0" (properties service !! "features")) = Raise e ->
     extract_credentials service = Raise e)
  /\ (forall c : HapCredentials,
        extract_credentials service = Ok c ->
        c = TRANSIENT_CREDENTIALS \/ c = NO_CREDENTIALS).
Proof.
  intros Hnone. unfold extract_credentials, features_property. rewrite Hnone.
  split.
  - intros e ->. reflexivity.
  - intros c. destruct (ft_parse _) as [f|e]; cbn; [|discriminate].
    destruct (_ || _); intros [= <-]; auto.
Qed.

(** X4: Advertising more never loses the transient scheme: if a feature mask
    selects the transient sentinel, so does every mask that contains it. *)
Theorem extract_credentials_monotone_in_features
    (s1 s2 : BaseService) (f1 f2 : Z) :
  credentials s1 = None -> credentials s2 = None ->
  ft_parse (default "0x0" (properties s1 !! "features")) = Ok f1 ->
  ft_parse (default "0x0" (properties s2 !! "features")) = Ok f2 ->
  Z.land f1 f2 = f1 ->
  extract_credentials s1 = Ok TRANSIENT_CREDENTIALS ->
  extract_credentials s2 = Ok TRANSIENT_CREDENTIALS.
Proof.
  unfold extract_credentials, features_property.
  intros -> -> -> -> Hsub. cbn.
  assert (forall flag, flag_in flag f1 = true -> flag_in flag f2 = true) as Hmono.
  { intros flag Hin. apply AirPlayAuthFacts.flag_in_land in Hin.
    apply AirPlayAuthFacts.flag_in_land.
    rewrite <- Hin at 1. rewrite <- Z.land_assoc, Hsub. exact Hin. }
  destruct (flag_in SupportsSystemPairing f1) eqn:E1.
  - intros _. rewrite (Hmono _ E1). reflexivity.
  - destruct (flag_in SupportsCoreUtilsPairingAndEncryption f1) eqn:E2.
    + intros _. rewrite (Hmono _ E2), orb_true_r. reflexivity.
    + cbn. intros [= Hsame]. rewrite Hsame. destruct (_ || _); reflexivity.
Qed.

End Facts.

Lemma verify_connection_null_is_noop_witness :
  verify_connection (CO := Fixtures.refusing_peer)
    (Fixtures.credentials_of Null) Fixtures.plain_connection
  = (Ok NullPairVerifyProcedure, Fixtures.plain_connection).
Proof.
  apply (verify_connection_null_is_noop (CO := Fixtures.refusing_peer)).
  reflexivity.
Defined.


Lemma extract_credentials_without_token_witness :
  extract_credentials (HP := Fixtures.codec) (CO := Fixtures.peer)
    (Fixtures.airplay_service None {["features" := "18000000"]})
  = Raise (ExternalError "ValueError" "invalid feature string: 18000000").
Proof.
  apply (extract_credentials_without_token (HP := Fixtures.codec)
           (CO := Fixtures.peer)
           (Fixtures.airplay_service None {["features" := "18000000"]}) eq_refl).
  vm_compute. reflexivity.
Defined.

Lemma extract_credentials_monotone_in_features_witness :
  extract_credentials (HP := Fixtures.codec) (CO := Fixtures.peer)
    (Fixtures.airplay_service None {["features" := "0x18000000"]})
  = Ok (TRANSIENT_CREDENTIALS (HapPairing := Fixtures.codec)).
Proof.
  apply (extract_credentials_monotone_in_features (HP := Fixtures.codec)
           (CO := Fixtures.peer)
           (Fixtures.airplay_service None {["features" := "0x08000000"]})
           (Fixtures.airplay_service None {["features" := "0x18000000"]})
           0x08000000%Z 0x18000000%Z); vm_compute; reflexivity.
Defined.

End AirPlayAuthMore.

(** ** The pairing handler, continued *)

Module MrpPairingMore.
Import MrpPairing.

Lemma uint_of_string_zeros (k : nat) (s : string) :
  NilEmpty.uint_of_string (zeros k ++ s)
  = option_map (Nat.iter k Decimal.D0) (NilEmpty.uint_of_string s).
Proof.
  induction k as [|k IH].
  - change (zeros 0 ++ s) with s. destruct (NilEmpty.uint_of_string s); reflexivity.
  - change (zeros (S k) ++ s) with (String "0" (zeros k ++ s)).
    cbn [NilEmpty.uint_of_string]. rewrite IH.
    destruct (NilEmpty.uint_of_string s); reflexivity.
Qed.

Lemma of_uint_leading_zeros (k : nat) (d : Decimal.uint) :
  Z.of_uint (Nat.iter k Decimal.D0 d) = Z.of_uint d.
Proof.
  induction k as [|k IH]; [reflexivity|].
  cbn [Nat.iter]. unfold Z.of_uint in *. cbn [Pos.of_uint]. exact IH.
Qed.

(** A numeral starts with a digit, not with a sign. *)
Lemma numeral_head (d : Decimal.uint) :
  d <> Decimal.Nil ->
  exists (a : ascii) (rest : string),
    NilEmpty.string_of_uint d = String a rest
    /\ Ascii.eqb a "+" = false /\ Ascii.eqb a "-" = false.
Proof.
  intros Hd. destruct d; [contradiction|..]; cbn; eauto.
Qed.

Lemma py_int_zfill_unsigned (w : nat) (d : Decimal.uint) :
  d <> Decimal.Nil ->
  py_int (zfill w (NilEmpty.string_of_uint d)) = Some (Z.of_uint d).
Proof.
  intros Hd. destruct (numeral_head d Hd) as (a & rest & Hs & Hplus & Hminus).
  unfold zfill. destruct (Nat.leb_spec w (String.length (NilEmpty.string_of_uint d)))
    as [Hle|Hlt].
  - unfold py_int, NilZero.int_of_string. rewrite Hs, Hminus, <- Hs.
    unfold NilZero.uint_of_string. rewrite Hs, <- Hs, NilEmpty.usu. reflexivity.
  - rewrite Hs, Hplus, Hminus. cbn [orb]. rewrite <- Hs.
    destruct (w - String.length (NilEmpty.string_of_uint d))%nat as [|k] eqn:Hk;
      [lia|].
    pose proof (uint_of_string_zeros (S k) (NilEmpty.string_of_uint d)) as Hz.
    rewrite NilEmpty.usu in Hz.
    change (zeros (S k) ++ NilEmpty.string_of_uint d)
      with (String "0" (zeros k ++ NilEmpty.string_of_uint d)) in *.
    unfold py_int, NilZero.int_of_string, NilZero.uint_of_string.
    change (Ascii.eqb "0" "-") with false. cbv iota. rewrite Hz. cbn [option_map].
    f_equal. apply (of_uint_leading_zeros (S k)).
Qed.

Lemma py_int_zfill_negative (w : nat) (d : Decimal.uint) :
  d <> Decimal.Nil ->
  py_int (zfill w (String "-" (NilEmpty.string_of_uint d))) = Some (- Z.of_uint d)%Z.
Proof.
  intros Hd. destruct (numeral_head d Hd) as (a & rest & Hs & Hplus & Hminus).
  unfold zfill.
  destruct (Nat.leb_spec w (String.length (String "-" (NilEmpty.string_of_uint d))))
    as [Hle|Hlt].
  - unfold py_int, NilZero.int_of_string. change (Ascii.eqb "-" "-") with true.
    cbv iota. unfold NilZero.uint_of_string. rewrite Hs, <- Hs, NilEmpty.usu.
    reflexivity.
  - change (Ascii.eqb "-" "+" || Ascii.eqb "-" "-") with true. cbv iota.
    destruct (w - String.length (String "-" (NilEmpty.string_of_uint d)))%nat
      as [|k] eqn:Hk; [lia|].
    pose proof (uint_of_string_zeros (S k) (NilEmpty.string_of_uint d)) as Hz.
    rewrite NilEmpty.usu in Hz.
    change (zeros (S k) ++ NilEmpty.string_of_uint d)
      with (String "0" (zeros k ++ NilEmpty.string_of_uint d)) in *.
    unfold py_int, NilZero.int_of_string, NilZero.uint_of_string.
    change (Ascii.eqb "-" "-") with true. cbv iota. rewrite Hz.
    cbn [option_map Z.of_int]. rewrite (of_uint_leading_zeros (S k)). reflexivity.
Qed.

(** Reading a zero-filled numeral gives the number back. *)
Lemma py_int_zfill_numeral (w : nat) (n : Z) :
  py_int (zfill w (py_str (PinInt n))) = Some n.
Proof.
  unfold py_str. destruct n as [|p|p]; cbn [Z.to_int NilZero.string_of_int].
  - apply (py_int_zfill_unsigned w Decimal.zero). discriminate.
  - pose proof (DecimalPos.Unsigned.to_uint_nonnil p) as Hnil.
    replace (NilZero.string_of_uint (Pos.to_uint p))
      with (NilEmpty.string_of_uint (Pos.to_uint p))
      by (destruct (Pos.to_uint p); [contradiction | reflexivity..]).
    rewrite py_int_zfill_unsigned by exact Hnil.
    unfold Z.of_uint. rewrite DecimalPos.Unsigned.of_to. reflexivity.
  - pose proof (DecimalPos.Unsigned.to_uint_nonnil p) as Hnil.
    replace (NilZero.string_of_uint (Pos.to_uint p))
      with (NilEmpty.string_of_uint (Pos.to_uint p))
      by (destruct (Pos.to_uint p); [contradiction | reflexivity..]).
    rewrite py_int_zfill_negative by exact Hnil.
    unfold Z.of_uint. rewrite DecimalPos.Unsigned.of_to. reflexivity.
Qed.

Lemma zfill_idempotent (w : nat) (s : string) : zfill w (zfill w s) = zfill w s.
Proof.
  pose proof (MrpPairingFacts.zfill_length w s) as Hlen.
  unfold zfill at 1.
  destruct (Nat.leb_spec w (String.length (zfill w s))) as [_|Hlt]; [reflexivity|lia].
Qed.

Section Facts.
Context `{HP : HapPairing} `{DEV : Device}.


(** What one [finish()] call can do to the handler: it never touches the
    PIN or the connection, it appends at most two handshakes, and either the
    service and [has_paired] are as before, or it returned, [has_paired] is
    set and the service holds a token that parsed and was verified. *)
Lemma finish_step (h : MrpPairingHandler) :
  let h' := snd (finish h) in
  pin_code h' = pin_code h
  /\ connection_closed h' = connection_closed h
  /\ (exists rest : list exchange,
        exchanged h' = (exchanged h ++ rest)%list /\ (length rest <= 2)%nat)
  /\ ((service h' = service h /\ _has_paired h' = _has_paired h)
      \/ (fst (finish h) = Ok tt /\ _has_paired h' = true
          /\ exists c parsed : HapCredentials,
               service h' = set_service_credentials (service h)
                              (Some (credentials_str c))
               /\ parse_credentials (credentials_str c) = Ok parsed
               /\ VerifyCredentials parsed ∈ exchanged h')).
Proof.
  destruct (MrpPairingFacts.truthy_cases (pin_code h))
    as [[Hf _] | (p & Hp & Hne & _)].
  - rewrite (MrpPairingFacts.finish_no_pin h Hf). cbn.
    repeat split; [exists []; rewrite app_nil_r; cbn; auto | auto].
  - rewrite (MrpPairingFacts.finish_with_pin h p Hp Hne). cbn.
    destruct (finish_pairing (exchanged h) "" p) as [c|e]; cbn.
    + destruct (parse_credentials (credentials_str c)) as [parsed|e] eqn:Hparse; cbn.
      * destruct (verifier_verify_credentials _ parsed) as [b|e]; cbn.
        -- repeat split.
           ++ exists [FinishPairing "" p; VerifyCredentials parsed].
              rewrite <- app_assoc. cbn. auto.
           ++ right. repeat split. exists c, parsed. repeat split; [exact Hparse|].
              rewrite !elem_of_app, !list_elem_of_singleton. auto.
        -- repeat split.
           ++ exists [FinishPairing "" p; VerifyCredentials parsed].
              rewrite <- app_assoc. cbn. auto.
           ++ auto.
      * repeat split; [exists [FinishPairing "" p]; cbn; auto | auto].
    + repeat split; [exists [FinishPairing "" p]; cbn; auto | auto].
Qed.

(** The same for any call: only [pin] writes the PIN, and what it writes is
    not empty; only [close] touches the connection. *)
Lemma invoke_step (c : call) (h : MrpPairingHandler) :
  let h' := snd (invoke c h) in
  (truthy (pin_code h) = true -> truthy (pin_code h') = true)
  /\ (connection_closed h = true -> connection_closed h' = true)
  /\ (exists rest : list exchange,
        exchanged h' = (exchanged h ++ rest)%list /\ (length rest <= 2)%nat)
  /\ ((service h' = service h /\ _has_paired h' = _has_paired h)
      \/ (c = CallFinish /\ fst (finish h) = Ok tt /\ _has_paired h' = true
          /\ exists cr parsed : HapCredentials,
               service h' = set_service_credentials (service h)
                              (Some (credentials_str cr))
               /\ parse_credentials (credentials_str cr) = Ok parsed
               /\ VerifyCredentials parsed ∈ exchanged h')).
Proof.
  destruct c as [|v| |]; unfold invoke.
  - cbn. repeat split; auto. exists [StartPairing]. cbn. auto.
  - cbn. repeat split; auto.
    + intros _. destruct (String.eqb_spec (zfill 4 (py_str v)) "") as [Heq|Hne];
        [exfalso; exact (MrpPairingFacts.zfill_nonempty _ Heq) | reflexivity].
    + exists []. rewrite app_nil_r. cbn. auto.
  - destruct (finish_step h) as (Hpin & Hclosed & Hlog & Hsvc). cbv zeta.
    rewrite Hpin, Hclosed. repeat split; auto.
    destruct Hsvc as [Hsame | (Hok & Hpaired & Hcred)]; [left; exact Hsame|].
    right. auto.
  - cbn. repeat split; auto. exists []. rewrite app_nil_r. cbn. auto.
Qed.

Lemma session_keeps_paired (cs : list call) (h : MrpPairingHandler) :
  _has_paired h = true -> _has_paired (session cs h) = true.
Proof.
  revert h. induction cs as [|c cs IH]; intros h Hpaired; [exact Hpaired|].
  cbn [session]. apply IH.
  destruct (invoke_step c h) as (_ & _ & _ & Hsvc).
  destruct Hsvc as [[_ Hsame] | (_ & _ & Hp & _)]; congruence.
Qed.


(** X6: The record of handshakes only grows, by at most two per call. *)
Theorem session_log_grows (cs : list call) (h : MrpPairingHandler) :
  exists rest : list exchange,
    exchanged (session cs h) = (exchanged h ++ rest)%list
    /\ (length rest <= 2 * length cs)%nat.
Proof.
  revert h. induction cs as [|c cs IH]; intros h.
  - exists []. rewrite app_nil_r. cbn. auto.
  - cbn [session]. destruct (IH (snd (invoke c h))) as (rest2 & Heq2 & Hlen2).
    destruct (invoke_step c h) as (_ & _ & (rest1 & Heq1 & Hlen1) & _).
    exists (rest1 ++ rest2)%list. rewrite Heq2, Heq1, <- app_assoc.
    split; [reflexivity|]. rewrite length_app. cbn [length]. lia.
Qed.

(** X7: As long as [has_paired] is false the service object is the one the
    handler was given: a session that has not ended up paired has not
    written [service.credentials], whatever calls it made and whatever the
    device answered. *)
Theorem unpaired_session_keeps_service (cs : list call) (h : MrpPairingHandler) :
  _has_paired (session cs h) = false ->
  service (session cs h) = service h.
Proof.
  revert h. induction cs as [|c cs IH]; intros h Hfinal; [reflexivity|].
  cbn [session] in *.
  destruct (invoke_step c h) as (_ & _ & _ & Hsvc).
  destruct Hsvc as [[Hsame _] | (_ & _ & Hpaired & _)].
  - rewrite (IH _ Hfinal). exact Hsame.
  - rewrite (session_keeps_paired cs _ Hpaired) in Hfinal. discriminate.
Qed.


(** X9: Pairing writes [credentials] and nothing else of the service: its
    identifier, protocol, port, properties and password are, after any
    calls, those the handler was given. *)
Theorem session_keeps_service_identity (cs : list call) (h : MrpPairingHandler) :
  let s := service h in
  let s' := service (session cs h) in
  svc_identifier s' = svc_identifier s
  /\ protocol s' = protocol s
  /\ port s' = port s
  /\ properties s' = properties s
  /\ password s' = password s.
Proof.
  cbv zeta. revert h. induction cs as [|c cs IH]; intros h; [repeat split|].
  cbn [session]. destruct (IH (snd (invoke c h))) as (H1 & H2 & H3 & H4 & H5).
  rewrite H1, H2, H3, H4, H5.
  destruct (invoke_step c h) as (_ & _ & _ & Hsvc).
  destruct Hsvc as [[-> _] | (_ & _ & _ & cr & parsed & -> & _)]; repeat split.
Qed.

(** X10: The whole exchange: [pin(v)] followed by [finish()], on a device that
    answers both handshakes, hands the device the user name [""] and the
    zero-filled PIN, verifies the parse of the token it got back, and leaves
    the handler paired with that token stored; [begin()] need not have
    run. *)
Theorem pin_then_finish_pairs
    (v : pin_value) (h : MrpPairingHandler) (c parsed : HapCredentials) (b : bool) :
  let p := zfill 4 (py_str v) in
  finish_pairing (exchanged h) "" p = Ok c ->
  parse_credentials (credentials_str c) = Ok parsed ->
  verifier_verify_credentials (exchanged h ++ [FinishPairing "" p]) parsed = Ok b ->
  session [CallPin v; CallFinish] h
  = {| service := set_service_credentials (service h) (Some (credentials_str c));
       connection_closed := connection_closed h;
       pin_code := Some p;
       _has_paired := true;
       exchanged := exchanged h ++ [FinishPairing "" p; VerifyCredentials parsed] |}.
Proof.
  cbv zeta. intros Hfp Hparse Hver. cbn [session invoke].
  rewrite (MrpPairingFacts.finish_with_pin (snd (pin v h)) (zfill 4 (py_str v))
             eq_refl (MrpPairingFacts.zfill_nonempty _)).
  cbn. rewrite Hfp, Hparse. cbn. rewrite Hver. cbn.
  rewrite <- app_assoc. reflexivity.
Qed.


(** X12: Giving a stored PIN back to [pin()] as a string stores the same PIN:
    the zero-filling is applied once and for all. *)
Theorem pin_renormalises (v : pin_value) (h : MrpPairingHandler) :
  pin (PinStr (zfill 4 (py_str v))) h = pin v h.
Proof. unfold pin. cbn [py_str]. rewrite zfill_idempotent. reflexivity. Qed.

(** X13: The PIN stored for an integer still denotes that integer, whatever its
    sign and size, so different integers are stored as different PINs. *)
Theorem pin_keeps_the_number (n : Z) (h : MrpPairingHandler) :
  (exists p : string,
     pin_code (snd (pin (PinInt n) h)) = Some p /\ py_int p = Some n)
  /\ (forall (m : Z) (h2 : MrpPairingHandler),
        pin_code (snd (pin (PinInt m) h2)) = pin_code (snd (pin (PinInt n) h)) ->
        m = n).
Proof.
  split.
  - exists (zfill 4 (py_str (PinInt n))). split; [reflexivity|].
    apply py_int_zfill_numeral.
  - intros m h2 Heq.
    change (Some (zfill 4 (py_str (PinInt m))) = Some (zfill 4 (py_str (PinInt n))))
      in Heq.
    injection Heq as Heq.
    assert (py_int (zfill 4 (py_str (PinInt m)))
            = py_int (zfill 4 (py_str (PinInt n)))) as Hsame
      by (f_equal; exact Heq).
    rewrite !py_int_zfill_numeral in Hsame. congruence.
Qed.

End Facts.


Lemma unpaired_session_keeps_service_witness :
  service (session (HP := Fixtures.codec) (DEV := Fixtures.failing_verify_device)
             [CallBegin; CallPin (PinInt 1234); CallFinish] Fixtures.fresh_handler)
  = Fixtures.mrp_service (Some "old").
Proof.
  apply (unpaired_session_keeps_service (HP := Fixtures.codec)
           (DEV := Fixtures.failing_verify_device)
           [CallBegin; CallPin (PinInt 1234); CallFinish] Fixtures.fresh_handler).
  vm_compute. reflexivity.
Defined.


Lemma pin_then_finish_pairs_witness :
  session (HP := Fixtures.codec) (DEV := Fixtures.willing_device)
    [CallPin (PinInt 7); CallFinish] Fixtures.fresh_handler
  = {| service := Fixtures.mrp_service (Some "hap-token");
       connection_closed := false; pin_code := Some "0007"; _has_paired := true;
       exchanged := [FinishPairing "" "0007";
                     VerifyCredentials (Fixtures.credentials_of HAP)] |}.
Proof.
  apply (pin_then_finish_pairs (HP := Fixtures.codec) (DEV := Fixtures.willing_device)
           (PinInt 7) Fixtures.fresh_handler (Fixtures.credentials_of HAP)
           (Fixtures.credentials_of HAP) true); reflexivity.
Defined.


Lemma pin_keeps_the_number_witness :
  (exists p : string,
     pin_code (snd (pin (PinInt (-5)) Fixtures.fresh_handler)) = Some p
     /\ py_int p = Some (-5)%Z)
  /\ (-5)%Z = (-5)%Z.
Proof.
  destruct (pin_keeps_the_number (-5) Fixtures.fresh_handler) as (Hread & Hinj).
  split; [exact Hread|].
  apply (Hinj (-5)%Z Fixtures.fresh_handler). reflexivity.
Defined.

End MrpPairingMore.

(** ** The device configuration, continued *)

Module ConfMore.
Import Conf.

(** The dictionary after [set_credentials]: the same keys, and under each
    the service it held, with new credentials under [p]. *)
Lemma set_credentials_lookup (self : AppleTV) (p q : Protocol) (creds : string) :
  _services (snd (set_credentials self p creds)) !! q
  = (fun s => if decide (q = p)
              then set_service_credentials s (Some creds) else s)
      <$> _services self !! q.
Proof.
  unfold set_credentials, get_service.
  destruct (_services self !! p) as [s|] eqn:Hp; cbn.
  - destruct (decide (q = p)) as [->|Hne].
    + rewrite lookup_insert_eq, Hp. reflexivity.
    + rewrite lookup_insert_ne by congruence.
      destruct (_services self !! q); reflexivity.
  - destruct (decide (q = p)) as [->|Hne].
    + rewrite Hp. reflexivity.
    + destruct (_services self !! q); reflexivity.
Qed.

Lemma identifier_loop_set_credentials
    (self : AppleTV) (p : Protocol) (creds : string) (prots : list Protocol) :
  identifier_loop (snd (set_credentials self p creds)) prots
  = identifier_loop self prots.
Proof.
  induction prots as [|q prots IH]; [reflexivity|].
  cbn [identifier_loop]. rewrite set_credentials_lookup, IH.
  destruct (_services self !! q) as [s|]; cbn; [|reflexivity].
  case_decide; reflexivity.
Qed.

Lemma identifier_loop_source (self : AppleTV) (prots : list Protocol) (i : string) :
  identifier_loop self prots = Some i ->
  exists (q : Protocol) (s : BaseService),
    _services self !! q = Some s /\ svc_identifier s = Some i.
Proof.
  induction prots as [|q prots IH]; cbn; [discriminate|].
  destruct (_services self !! q) as [s|] eqn:Hq; [|exact IH].
  intros Hs. exists q, s. auto.
Qed.

Lemma omap_lookup_agree (m1 m2 : gmap Protocol BaseService) (keys : list Protocol) :
  (forall p, p ∈ keys -> m1 !! p = m2 !! p) ->
  omap (fun p => m1 !! p) keys = omap (fun p => m2 !! p) keys.
Proof.
  intros Hagree. apply list_omap_ext.
  induction keys as [|k keys IH]; constructor.
  - apply Hagree. left.
  - apply IH. intros p Hp. apply Hagree. right. exact Hp.
Qed.

Lemma omap_one {A B} (f : A -> option B) (k : A) :
  omap f [k] = match f k with Some y => [y] | None => [] end.
Proof. reflexivity. Qed.

Lemma omap_cons_lookup (m : gmap Protocol BaseService) (q : Protocol)
    (keys : list Protocol) :
  omap (fun p => m !! p) (q :: keys)
  = match m !! q with
    | Some s => s :: omap (fun p => m !! p) keys
    | None => omap (fun p => m !! p) keys
    end.
Proof. reflexivity. Qed.

Lemma omap_cons_identifier (s : BaseService) (l : list BaseService) :
  omap svc_identifier (s :: l)
  = match svc_identifier s with
    | Some i => i :: omap svc_identifier l
    | None => omap svc_identifier l
    end.
Proof. reflexivity. Qed.

Lemma omap_total_length (m : gmap Protocol BaseService) (keys : list Protocol) :
  (forall p, p ∈ keys -> is_Some (m !! p)) ->
  length (omap (fun p => m !! p) keys) = length keys.
Proof.
  induction keys as [|k keys IH]; intros Hall; [reflexivity|].
  cbn. destruct (Hall k) as [s Hs]; [left|]. rewrite Hs. cbn.
  rewrite IH; [reflexivity|]. intros p Hp. apply Hall. right. exact Hp.
Qed.

(** X14: [identifier] is the identifier of the service that [main_service()]
    picks, and there is none when [main_service()] raises. *)
Theorem identifier_is_that_of_main_service (self : AppleTV) :
  match main_service self None with
  | inr service => identifier self = svc_identifier service
  | inl _ => identifier self = None
  end.
Proof.
  unfold main_service, identifier. cbn.
  repeat (match goal with
          | |- context [_services self !! ?p] => destruct (_services self !! p)
          end; try reflexivity).
Qed.

(** X15: [main_service()] without a protocol raises [NoServiceError] exactly when
    none of MRP, DMAP, AirPlay and RAOP is registered, a Companion service
    does not count, and what it returns is registered under one of the four;
    with a protocol it returns the service of that protocol or raises. *)
Theorem main_service_cases (self : AppleTV) :
  (main_service self None = inl (NoServiceError "no service to connect to")
   <-> get_service self MRP = None /\ get_service self DMAP = None
       /\ get_service self AirPlay = None /\ get_service self RAOP = None)
  /\ (forall service : BaseService,
        main_service self None = inr service ->
        exists p : Protocol, p <> Companion /\ get_service self p = Some service)
  /\ (forall p : Protocol,
        main_service self (Some p)
        = match get_service self p with
          | Some service => inr service
          | None => inl (NoServiceError "no service to connect to")
          end).
Proof.
  unfold main_service, get_service. cbn. split; [|split].
  - destruct (_services self !! MRP); [split; [discriminate | intros [? _]; discriminate]|].
    destruct (_services self !! DMAP);
      [split; [discriminate | intros (_ & ? & _); discriminate]|].
    destruct (_services self !! AirPlay);
      [split; [discriminate | intros (_ & _ & ? & _); discriminate]|].
    destruct (_services self !! RAOP);
      [split; [discriminate | intros (_ & _ & _ & ?); discriminate]|].
    split; auto.
  - intros service.
    destruct (_services self !! MRP) eqn:E1;
      [intros [= <-]; exists MRP; split; [discriminate | exact E1]|].
    destruct (_services self !! DMAP) eqn:E2;
      [intros [= <-]; exists DMAP; split; [discriminate | exact E2]|].
    destruct (_services self !! AirPlay) eqn:E3;
      [intros [= <-]; exists AirPlay; split; [discriminate | exact E3]|].
    destruct (_services self !! RAOP) eqn:E4;
      [intros [= <-]; exists RAOP; split; [discriminate | exact E4]|].
    discriminate.
  - intros p. destruct (_services self !! p); reflexivity.
Qed.

(** X16: [set_credentials] changes what a service stores, not which device the
    configuration stands for: the identifier is the same, the configuration
    compares equal to exactly the objects it compared equal to before, the
    same protocols have a service, and any [main_service] call raises after
    it exactly when it raised before. *)
Theorem set_credentials_keeps_identity (self : AppleTV) (p : Protocol) (creds : string) :
  let self' := snd (set_credentials self p creds) in
  identifier self' = identifier self
  /\ (forall other : option AppleTV, AppleTV_eq self' other = AppleTV_eq self other)
  /\ (forall other : AppleTV, AppleTV_eq other (Some self') = AppleTV_eq other (Some self))
  /\ (forall q : Protocol,
        is_Some (get_service self' q) <-> is_Some (get_service self q))
  /\ (forall q : option Protocol,
        (exists e, main_service self' q = inl e) <-> (exists e, main_service self q = inl e)).
Proof.
  cbv zeta.
  assert (identifier (snd (set_credentials self p creds)) = identifier self) as Hid
    by apply identifier_loop_set_credentials.
  assert (forall q : Protocol,
            is_Some (get_service (snd (set_credentials self p creds)) q)
            <-> is_Some (get_service self q)) as Hsome.
  { intros q. unfold get_service. rewrite set_credentials_lookup.
    apply fmap_is_Some. }
  split; [exact Hid|]. split; [|split; [|split; [exact Hsome|]]].
  - intros [other|]; unfold AppleTV_eq; [rewrite Hid|]; reflexivity.
  - intros other. unfold AppleTV_eq. rewrite Hid. reflexivity.
  - assert (forall prots,
              (exists e, main_service_loop (snd (set_credentials self p creds)) prots = inl e)
              <-> (exists e, main_service_loop self prots = inl e)) as Hloop.
    { induction prots as [|q prots IH]; [cbn; split; eauto|].
      cbn [main_service_loop]. rewrite set_credentials_lookup.
      destruct (_services self !! q); cbn; [|exact IH].
      split; intros [e He]; discriminate. }
    intros q. unfold main_service. apply Hloop.
Qed.

(** X17: Setting credentials twice for a protocol is setting the second ones, and
    settings for different protocols do not disturb each other. *)
Theorem set_credentials_compose
    (self : AppleTV) (p q : Protocol) (c1 c2 : string) :
  set_credentials (snd (set_credentials self p c1)) p c2 = set_credentials self p c2
  /\ (p <> q ->
      snd (set_credentials (snd (set_credentials self p c1)) q c2)
      = snd (set_credentials (snd (set_credentials self q c2)) p c1)).
Proof.
  unfold set_credentials, get_service. split.
  - destruct (_services self !! p) as [s|] eqn:Hp; cbn.
    + rewrite lookup_insert_eq. cbn. rewrite insert_insert_eq. reflexivity.
    + rewrite Hp. reflexivity.
  - intros Hne.
    destruct (_services self !! p) as [sp|] eqn:Hp;
      destruct (_services self !! q) as [sq|] eqn:Hq; cbn;
      rewrite ?lookup_insert_ne by congruence; rewrite ?Hp, ?Hq; cbn;
      try reflexivity.
    rewrite insert_insert_ne by congruence. reflexivity.
Qed.

Section WithMerge.
Context `{SI : ServiceInterface}.

Lemma add_service_lookup (self : AppleTV) (service : BaseService) (q : Protocol) :
  _services (add_service self service) !! q
  = if decide (q = protocol service)
    then Some (match _services self !! protocol service with
               | Some existing => merge existing service
               | None => service
               end)
    else _services self !! q.
Proof.
  unfold add_service. cbn.
  destruct (_services self !! protocol service); case_decide; subst;
    rewrite ?lookup_insert_eq, ?lookup_insert_ne by congruence; reflexivity.
Qed.

(** X18: Adding a service for a protocol that has none registers the service as
    it is and leaves the other protocols alone; it goes to the end of
    [services], and its [credentials] can be set from then on. *)
Theorem add_service_fresh (self : OrderedAppleTV) (service : BaseService) :
  dict_wf self ->
  get_service (config self) (protocol service) = None ->
  let self' := ordered_add_service self service in
  get_service (config self') (protocol service) = Some service
  /\ (forall q : Protocol, q <> protocol service ->
        get_service (config self') q = get_service (config self) q)
  /\ services self' = (services self ++ [service])%list
  /\ (forall creds : string,
        fst (set_credentials (config self') (protocol service) creds) = true).
Proof.
  intros [Hnodup Hkeys] Hnone. cbv zeta. unfold get_service in *.
  unfold ordered_add_service, services. cbn [config key_order]. rewrite Hnone.
  split; [|split; [|split]].
  - rewrite add_service_lookup, decide_True, Hnone by reflexivity. reflexivity.
  - intros q Hq. rewrite add_service_lookup, decide_False by exact Hq. reflexivity.
  - rewrite omap_app. f_equal.
    + apply omap_lookup_agree. intros p Hp.
      rewrite add_service_lookup, decide_False; [reflexivity|].
      intros ->. apply Hkeys in Hp. rewrite Hnone in Hp. destruct Hp; discriminate.
    + rewrite omap_one. cbv beta.
      rewrite add_service_lookup, decide_True, Hnone by reflexivity. reflexivity.
  - intros creds. unfold set_credentials, get_service.
    rewrite add_service_lookup, decide_True by reflexivity. reflexivity.
Qed.

(** X19: Adding a service for a protocol that already has one merges it into the
    object that is there: no second service appears, the order of the
    services is kept, and the other protocols are left alone. *)
Theorem add_service_existing
    (self : OrderedAppleTV) (service existing : BaseService) :
  dict_wf self ->
  get_service (config self) (protocol service) = Some existing ->
  let self' := ordered_add_service self service in
  get_service (config self') (protocol service) = Some (merge existing service)
  /\ (forall q : Protocol, q <> protocol service ->
        get_service (config self') q = get_service (config self) q)
  /\ key_order self' = key_order self
  /\ length (services self') = length (services self).
Proof.
  intros [Hnodup Hkeys] Hsome. cbv zeta. unfold get_service in *.
  unfold ordered_add_service, services. cbn [config key_order]. rewrite Hsome.
  split; [|split; [|split]].
  - rewrite add_service_lookup, decide_True, Hsome by reflexivity. reflexivity.
  - intros q Hq. rewrite add_service_lookup, decide_False by exact Hq. reflexivity.
  - reflexivity.
  - rewrite !omap_total_length; [reflexivity | |].
    + intros p Hp. apply Hkeys, Hp.
    + intros p Hp. rewrite add_service_lookup. case_decide; [eauto|].
      apply Hkeys, Hp.
Qed.

(** The key order goes with the dictionary: it does so in a new
    configuration and after every [add_service] and [set_credentials]. *)
Lemma dict_wf_init address name deep_sleep props device_info :
  dict_wf (OrderedAppleTV_init address name deep_sleep props device_info).
Proof.
  split; [constructor|]. intros p. cbn. rewrite lookup_empty.
  split; [intros H; inversion H | intros [? ?]; discriminate].
Qed.

Lemma dict_wf_add (self : OrderedAppleTV) (service : BaseService) :
  dict_wf self -> dict_wf (ordered_add_service self service).
Proof.
  intros [Hnodup Hkeys]. unfold dict_wf, ordered_add_service.
  cbn [config key_order].
  destruct (_services (config self) !! protocol service) as [existing|] eqn:He.
  - split; [exact Hnodup|]. intros p. rewrite add_service_lookup.
    case_decide as Hp; [subst|apply Hkeys].
    split; [eauto|]. intros _. apply Hkeys. rewrite He. eauto.
  - split.
    + apply NoDup_app. split; [exact Hnodup|]. split; [|apply NoDup_singleton].
      intros p Hp Hin. apply list_elem_of_singleton in Hin. subst.
      apply Hkeys in Hp. rewrite He in Hp. destruct Hp; discriminate.
    + intros p. rewrite add_service_lookup, elem_of_app, list_elem_of_singleton.
      case_decide as Hp; [subst; split; eauto|].
      rewrite Hkeys. split; [intros [H|H]; [exact H | contradiction] | auto].
Qed.

Lemma dict_wf_set (self : OrderedAppleTV) (p : Protocol) (creds : string) :
  dict_wf self -> dict_wf (snd (ordered_set_credentials self p creds)).
Proof.
  intros [Hnodup Hkeys]. unfold dict_wf, ordered_set_credentials.
  cbn [snd config key_order]. split; [exact Hnodup|].
  intros q. rewrite set_credentials_lookup, fmap_is_Some. apply Hkeys.
Qed.

Lemma dict_wf_session (self : OrderedAppleTV) (cs : list config_call) :
  dict_wf self -> dict_wf (config_session self cs).
Proof.
  revert self. induction cs as [|c cs IH]; intros self Hwf; [exact Hwf|].
  cbn. apply IH. destruct c; [apply dict_wf_add | apply dict_wf_set]; exact Hwf.
Qed.

(** Under that invariant [services] lists the dictionary. *)
Lemma wf_services_listing (self : OrderedAppleTV) :
  dict_wf self ->
  length (services self) = size (_services (config self))
  /\ (forall service : BaseService,
        service ∈ services self
        <-> exists p : Protocol, get_service (config self) p = Some service).
Proof.
  intros [Hnodup Hkeys]. unfold services, get_service. split.
  - rewrite omap_total_length by (intros p Hp; apply Hkeys, Hp).
    rewrite <- size_dom, <- (size_list_to_set (C := gset Protocol)) by exact Hnodup.
    f_equal. apply set_eq. intros p.
    rewrite elem_of_dom, elem_of_list_to_set. apply Hkeys.
  - intros service. rewrite list_elem_of_omap. split.
    + intros (p & _ & Hp). eauto.
    + intros (p & Hp). exists p. split; [|exact Hp]. apply Hkeys. rewrite Hp. eauto.
Qed.

(** X20: In a configuration built from a new one by [add_service] and
    [set_credentials] calls, [services] lists the dictionary: as many
    services as there are protocols with one, each registered service is in
    the list, and nothing else is. *)
Theorem built_configuration_lists_its_services
    address name deep_sleep props device_info (cs : list config_call) :
  let self := config_session
                (OrderedAppleTV_init address name deep_sleep props device_info) cs in
  length (services self) = size (_services (config self))
  /\ (forall service : BaseService,
        service ∈ services self
        <-> exists p : Protocol, get_service (config self) p = Some service).
Proof.
  cbv zeta. apply wf_services_listing, dict_wf_session, dict_wf_init.
Qed.

(** X21: A service registered under Companion plays no part in what the device
    is taken to be: adding one changes neither [identifier] nor what
    [main_service()] returns or raises. *)
Theorem companion_service_is_not_main (self : AppleTV) (service : BaseService) :
  protocol service = Companion ->
  identifier (add_service self service) = identifier self
  /\ main_service (add_service self service) None = main_service self None
  /\ (forall other : option AppleTV,
        AppleTV_eq (add_service self service) other = AppleTV_eq self other).
Proof.
  intros Hp.
  assert (identifier (add_service self service) = identifier self) as Hid.
  { unfold identifier. cbn [identifier_loop].
    rewrite !add_service_lookup, Hp, !decide_False by discriminate. reflexivity. }
  split; [exact Hid|]. split.
  - unfold main_service. cbn [main_service_loop].
    rewrite !add_service_lookup, Hp, !decide_False by discriminate. reflexivity.
  - intros [other|]; unfold AppleTV_eq; [rewrite Hid|]; reflexivity.
Qed.

(** X22: A new configuration that is given a Companion service and nothing else
    is not ready and has no identifier and no main service: the Companion
    class passes no identifier on, and the protocol is not among those
    [identifier] and [main_service()] look at.  Asked for by protocol, the
    service is returned. *)
Theorem companion_only_configuration
    address name deep_sleep props device_info
    (port_number : Z) (creds : option string) (sprops : option (gmap string string)) :
  let service := CompanionService port_number creds sprops in
  let self := ordered_add_service
                (OrderedAppleTV_init address name deep_sleep props device_info)
                service in
  services self = [service]
  /\ ready self = false
  /\ all_identifiers self = []
  /\ identifier (config self) = None
  /\ main_service (config self) None = inl (NoServiceError "no service to connect to")
  /\ main_service (config self) (Some Companion) = inr service.
Proof.
  cbv zeta.
  set (service := CompanionService port_number creds sprops).
  set (new := OrderedAppleTV_init address name deep_sleep props device_info).
  assert (forall q : Protocol,
            _services (config (ordered_add_service new service)) !! q
            = if decide (q = Companion) then Some service else None) as Hlookup.
  { intros q. unfold ordered_add_service. cbn [config].
    rewrite add_service_lookup. change (protocol service) with Companion.
    change (_services (config new)) with (∅ : gmap Protocol BaseService).
    rewrite !lookup_empty. reflexivity. }
  assert (key_order (ordered_add_service new service) = [Companion]) as Hkeys.
  { unfold ordered_add_service. cbn [key_order].
    change (_services (config new)) with (∅ : gmap Protocol BaseService).
    rewrite lookup_empty. reflexivity. }
  assert (services (ordered_add_service new service) = [service]) as Hservices.
  { unfold services. rewrite Hkeys, omap_one, Hlookup. reflexivity. }
  unfold ready, all_identifiers, identifier, main_service.
  rewrite Hservices. cbn [identifier_loop main_service_loop].
  rewrite !Hlookup. repeat split.
Qed.

End WithMerge.

(** X23: [set_credentials] does not show in the listings: the order of the
    services, their number, [all_identifiers] and [ready] are as before. *)
Theorem set_credentials_keeps_listing
    (self : OrderedAppleTV) (p : Protocol) (creds : string) :
  let self' := snd (ordered_set_credentials self p creds) in
  key_order self' = key_order self
  /\ length (services self') = length (services self)
  /\ all_identifiers self' = all_identifiers self
  /\ ready self' = ready self.
Proof.
  cbv zeta. unfold ready, all_identifiers, services, ordered_set_credentials.
  cbn [snd config key_order]. split; [reflexivity|].
  induction (key_order self) as [|q keys (IHlen & IHids & IHready)];
    [repeat split|].
  rewrite !(omap_cons_lookup _ q keys), set_credentials_lookup.
  destruct (_services (config self) !! q) as [s|]; cbn [fmap option_fmap option_map];
    [|auto].
  cbn [length]. rewrite IHlen.
  rewrite !omap_cons_identifier.
  assert (svc_identifier
            (if decide (q = p) then set_service_credentials s (Some creds) else s)
          = svc_identifier s) as Hid by (case_decide; reflexivity).
  rewrite Hid, IHids. cbn [existsb]. rewrite Hid, IHready. auto.
Qed.

(** X24: [ready] holds exactly when [all_identifiers] has a non-empty entry, and
    the identifier of the device, when there is one, is among
    [all_identifiers]. *)
Theorem ready_and_identifiers (self : OrderedAppleTV) :
  (ready self = true <-> exists i : string, i ∈ all_identifiers self /\ i <> "")
  /\ (dict_wf self ->
      forall i : string, identifier (config self) = Some i -> i ∈ all_identifiers self).
Proof.
  split.
  - unfold ready, all_identifiers. rewrite existsb_exists. split.
    + intros (s & Hin & Htruthy). destruct (svc_identifier s) as [i|] eqn:Hid;
        [|discriminate].
      exists i. split.
      * apply list_elem_of_omap. exists s. split; [apply list_elem_of_In, Hin | exact Hid].
      * intros ->. discriminate.
    + intros (i & Hin & Hne). apply list_elem_of_omap in Hin as (s & Hs & Hid).
      exists s. split; [apply list_elem_of_In, Hs|]. rewrite Hid. cbn.
      destruct (String.eqb_spec i ""); [contradiction | reflexivity].
  - intros [_ Hkeys] i Hid.
    destruct (identifier_loop_source _ _ _ Hid) as (q & s & Hq & Hs).
    unfold all_identifiers, services.
    apply list_elem_of_omap. exists s. split; [|exact Hs].
    apply list_elem_of_omap. exists q. split; [|exact Hq].
    apply Hkeys. rewrite Hq. eauto.
Qed.

Lemma main_service_cases_witness :
  main_service (config Fixtures.new_atv) None
  = inl (NoServiceError "no service to connect to").
Proof.
  apply (proj1 (main_service_cases (config Fixtures.new_atv))).
  repeat split; reflexivity.
Defined.

Lemma set_credentials_compose_witness :
  snd (set_credentials (snd (set_credentials Fixtures.atv MRP "a")) AirPlay "b")
  = snd (set_credentials (snd (set_credentials Fixtures.atv AirPlay "b")) MRP "a").
Proof.
  apply (proj2 (set_credentials_compose Fixtures.atv MRP AirPlay "a" "b")).
  discriminate.
Defined.

Lemma add_service_fresh_witness :
  services (ordered_add_service (SI := Fixtures.merging) Fixtures.two_services
              (CompanionService 49153%Z None None))
  = (services Fixtures.two_services ++ [CompanionService 49153%Z None None])%list.
Proof.
  destruct (add_service_fresh (SI := Fixtures.merging) Fixtures.two_services
              (CompanionService 49153%Z None None)) as (_ & _ & Hlist & _).
  - apply (dict_wf_session (SI := Fixtures.merging)), dict_wf_init.
  - reflexivity.
  - exact Hlist.
Defined.

Lemma add_service_existing_witness :
  get_service
    (config (ordered_add_service (SI := Fixtures.merging) Fixtures.two_services
               (MrpService (Some "other-id") 49152%Z (Some "new") None))) MRP
  = Some (MrpService (Some "mrp-id") 49152%Z (Some "new") None).
Proof.
  destruct (add_service_existing (SI := Fixtures.merging) Fixtures.two_services
              (MrpService (Some "other-id") 49152%Z (Some "new") None)
              (MrpService (Some "mrp-id") 49152%Z (Some "old") None))
    as (Hget & _).
  - apply (dict_wf_session (SI := Fixtures.merging)), dict_wf_init.
  - reflexivity.
  - exact Hget.
Defined.

Lemma ready_and_identifiers_witness :
  (exists i : string, i ∈ all_identifiers Fixtures.two_services /\ i <> "")
  /\ "mrp-id" ∈ all_identifiers Fixtures.two_services.
Proof.
  destruct (ready_and_identifiers Fixtures.two_services) as (Hready & Hident).
  split.
  - apply (proj1 Hready). vm_compute. reflexivity.
  - apply Hident; [|vm_compute; reflexivity].
    apply (dict_wf_session (SI := Fixtures.merging)), dict_wf_init.
Defined.

Lemma companion_service_is_not_main_witness :
  identifier (add_service (SI := Fixtures.merging) (config Fixtures.two_services)
                (CompanionService 49153%Z (Some "c") None))
  = identifier (config Fixtures.two_services).
Proof.
  apply (companion_service_is_not_main (SI := Fixtures.merging)
           (config Fixtures.two_services) (CompanionService 49153%Z (Some "c") None)).
  reflexivity.
Defined.

End ConfMore.
